(** * koa-rest-router: RESTful resource tables over a base router

    A shallow embedding of [src/index.js].  The router instance is an explicit
    state threaded through every method; JavaScript arrays of route objects
    live in a store and are passed around by reference, so that "the very same
    table" and "a brand-new array" are statements about addresses.

    Code that [index.js] calls but that lives elsewhere ([./utils] and the base
    router it re-exports) is modelled from the specification and marked so. *)

From stdpp Require Import gmap strings list fin_maps pretty.

Set Warnings "-register-all".

(** ** JavaScript values *)

(** Middleware functions.  Only their identity matters here:
    [notImplemented] is the responder that answers 501 Not Implemented. *)
Inductive Handler :=
| notImplemented
| UserFn (id : nat).

Inductive JsValue :=
| JUndefined
| JNull
| JBool (b : bool)
| JNum (n : Z)
| JStr (s : string)
| JFun (h : Handler)
| JArr (l : list JsValue)
| JObj (o : gmap string JsValue).

(** The [typeof] operator. *)
Definition typeof (v : JsValue) : string :=
  match v with
  | JUndefined => "undefined"
  | JNull => "object"
  | JBool _ => "boolean"
  | JNum _ => "number"
  | JStr _ => "string"
  | JFun _ => "function"
  | JArr _ => "object"
  | JObj _ => "object"
  end.

(** ToBoolean, as used by [||] and [if]. *)
Definition truthy (v : JsValue) : bool :=
  match v with
  | JUndefined | JNull => false
  | JBool b => b
  | JNum n => negb (n =? 0)%Z
  | JStr s => negb (String.eqb s EmptyString)
  | JFun _ | JArr _ | JObj _ => true
  end.

(** [a || b] *)
Definition js_or (a b : JsValue) : JsValue := if truthy a then a else b.

(** [o.k] on an object whose own properties are [o]; absent gives [undefined]. *)
Definition get_prop (o : gmap string JsValue) (k : string) : JsValue :=
  default JUndefined (o !! k).

(** Own enumerable properties of a value: an object's entries, an array's
    elements under their decimal indices, nothing for the rest. *)
Definition own_props (v : JsValue) : gmap string JsValue :=
  match v with
  | JObj o => o
  | JArr l => list_to_map (imap (λ i x, (pretty i, x)) l)
  | _ => ∅
  end.

(** [s[0] === '/'] and [s.slice(1)] *)
Definition starts_with_slash (s : string) : bool :=
  match s with
  | String c _ => Ascii.eqb c (Ascii.ascii_of_nat 47)
  | EmptyString => false
  end.

Definition slice1 (s : string) : string :=
  match s with
  | String _ s' => s'
  | EmptyString => EmptyString
  end.

Definition upper_ascii (c : Ascii.ascii) : Ascii.ascii :=
  let n := Ascii.nat_of_ascii c in
  if (97 <=? n) && (n <=? 122) then Ascii.ascii_of_nat (n - 32) else c.

(** [s.toUpperCase()] on ASCII text. *)
Fixpoint toUpperCase (s : string) : string :=
  match s with
  | EmptyString => EmptyString
  | String c s' => String (upper_ascii c) (toUpperCase s')
  end.

(** ** The data model *)

(** Route objects, as the base router builds them. *)
Module Route.
Record t := mk {
  prefix : JsValue;
  path : string;
  route : string;
  method : string;
  middlewares : list JsValue
}.
End Route.

(** An array of route objects, with the [name] property a resource table
    carries ([None] when the array has no such property). *)
Module Arr.
Record t := mk {
  items : list Route.t;
  name : option string
}.
Definition empty : t := mk [] None.
Definition push (x : Route.t) (a : t) : t := mk (items a ++ [x]) (name a).
Definition set_name (n : string) (a : t) : t := mk (items a) (Some n).
End Arr.

(** [this.options]: the two mappings the router reads, and every other
    top-level option (such as [prefix]). *)
Module Options.
Record t := mk {
  methods : gmap string JsValue;
  map : gmap string JsValue;
  rest : gmap string JsValue
}.
End Options.

(** Addresses of arrays in the store. *)
Definition ref := nat.

(** The store of arrays together with the router instance [this]. *)
Record State := mkState {
  heap : list Arr.t;
  options : Options.t;
  routes : list Route.t;
  resources : list ref
}.

Definition set_heap (h : list Arr.t) (st : State) : State :=
  mkState h (options st) (routes st) (resources st).
Definition set_options (o : Options.t) (st : State) : State :=
  mkState (heap st) o (routes st) (resources st).
Definition set_routes (rs : list Route.t) (st : State) : State :=
  mkState (heap st) (options st) rs (resources st).
Definition set_resources (rs : list ref) (st : State) : State :=
  mkState (heap st) (options st) (routes st) rs.

(** ** Computations: state and exceptions *)

Inductive Exn :=
| TypeError (msg : string).

Inductive Result (A : Type) :=
| Ok (a : A) (st : State)
| Throw (e : Exn) (st : State).
Arguments Ok {A} a st.
Arguments Throw {A} e st.

Definition M (A : Type) : Type := State → Result A.

Definition ret {A} (a : A) : M A := λ st, Ok a st.
Definition bind {A B} (m : M A) (k : A → M B) : M B :=
  λ st, match m st with
        | Ok a st' => k a st'
        | Throw e st' => Throw e st'
        end.
Definition throw {A} (e : Exn) : M A := λ st, Throw e st.
Definition get : M State := λ st, Ok st st.
Definition modify (f : State → State) : M unit := λ st, Ok tt (f st).

Notation "'let!' x ':=' m 'in' k" := (bind m (λ x, k))
  (at level 10, x name, m at level 99, k at level 200).
Notation "'do!' m 'in' k" := (bind m (λ _, k))
  (at level 10, m at level 99, k at level 200).

(** [[]]: a fresh empty array, at the next free address. *)
Definition new_array (a : Arr.t) : M ref :=
  λ st, Ok (length (heap st)) (set_heap (heap st ++ [a]) st).

(** Reading an array through its reference. *)
Definition read_array (p : ref) : M Arr.t :=
  λ st, match heap st !! p with
        | Some a => Ok a st
        | None => Throw (TypeError "not an array") st
        end.

(** In-place update of the array at [p]. *)
Definition update_array (p : ref) (f : Arr.t → Arr.t) : M unit :=
  λ st, match heap st !! p with
        | Some a => Ok tt (set_heap (<[p := f a]> (heap st)) st)
        | None => Throw (TypeError "not an array") st
        end.

(** ** [./utils] *)

Module utils.

(** Modelled from the spec: [utils.r] is not under src/.  It builds the path
    pattern of an action from the route segment and up to two further
    segments: [/{route}], [/{route}/new], [/{route}/{param}],
    [/{route}/{param}/edit]; with the empty segment of the root resource
    these collapse to [/], [/new], [/:id], [/:id/edit]. *)
Definition r (name : string) (id edit : option string) : string :=
  let seg (o : option string) :=
    match o with Some s => "/" +:+ s | None => EmptyString end in
  let url := (if String.eqb name EmptyString then EmptyString else "/" +:+ name)
               +:+ seg id +:+ seg edit in
  if String.eqb url EmptyString then "/" else url.

(** Modelled from the spec: [utils.defaultRequestMethods] is not under src/.
    Unspecified verbs default to the canonical HTTP verbs.  The delete verb
    is kept under the key [delete]: the doc comment of [resource] (line 205)
    changes it with [opts.methods.delete], the one of [createResource]
    (line 374) with [methods.del], and line 473 reads [methods.del] first
    and [methods.delete] when that is not set, so that either override takes
    effect. *)
Definition defaultRequestMethods : gmap string JsValue :=
  {[ "get" := JStr "GET"; "put" := JStr "PUT";
     "delete" := JStr "DELETE"; "post" := JStr "POST" ]}.

(** Modelled from the spec: [utils.defaultControllerMap] is not under src/.
    Unspecified entries default to the canonical action names. *)
Definition defaultControllerMap : gmap string JsValue :=
  {[ "index" := JStr "index"; "new" := JStr "new";
     "create" := JStr "create"; "show" := JStr "show";
     "edit" := JStr "edit"; "update" := JStr "update";
     "remove" := JStr "remove" ]}.

(** Modelled from the spec: [utils.defaultController] is not under src/.
    Its seven entries all respond 501 Not Implemented. *)
Definition defaultController : gmap string JsValue :=
  {[ "index" := JFun notImplemented; "new" := JFun notImplemented;
     "create" := JFun notImplemented; "show" := JFun notImplemented;
     "edit" := JFun notImplemented; "update" := JFun notImplemented;
     "remove" := JFun notImplemented ]}.

(** Modelled from the spec: [utils.extend] is not under src/.
    [extend({}, a, b)] overlays the own properties of [b] onto [a]. *)
Definition extend (a : gmap string JsValue) (b : JsValue)
  : gmap string JsValue :=
  own_props b ∪ a.

(** Modelled from the spec: [utils.mergeOptions] is not under src/.
    A shallow merge in which the override wins per key; the [methods] and
    [map] mappings are themselves merged per key. *)
Definition mergeOptions (opts : Options.t) (options : JsValue) : Options.t :=
  let o := own_props options in
  Options.mk
    (own_props (get_prop o "methods") ∪ Options.methods opts)
    (own_props (get_prop o "map") ∪ Options.map opts)
    (delete "methods" (delete "map" o) ∪ Options.rest opts).

(** Modelled from the spec: the base router's normalisation of the handlers
    of a route is not under src/.  One handler or an ordered sequence of
    handlers; empty when there is none. *)
Definition arrayify (fns : JsValue) : list JsValue :=
  match fns with
  | JUndefined | JNull => []
  | JArr l => l
  | v => [v]
  end.

End utils.

(** ** Sample collaborators

    Concrete stand-ins for the collaborators the router is parametrised over,
    used to run the model on examples. *)

Module Sample.

Definition is_s (c : Ascii.ascii) : bool := Ascii.eqb c (Ascii.ascii_of_nat 115).

Fixpoint ends_with_s (s : string) : bool :=
  match s with
  | EmptyString => false
  | String c EmptyString => is_s c
  | String _ s' => ends_with_s s'
  end.

(** [cat] gives [cats]; [cats] stays [cats]. *)
Definition pluralize (s : string) : string :=
  if String.eqb s EmptyString || ends_with_s s then s else s +:+ "s".

(** [cats] gives [cat]; [cat] stays [cat]. *)
Fixpoint singularize (s : string) : string :=
  match s with
  | EmptyString => EmptyString
  | String c EmptyString => if is_s c then EmptyString else s
  | String c s' => String c (singularize s')
  end.

Definition ToString (v : JsValue) : string :=
  match v with
  | JUndefined => "undefined"
  | JNull => "null"
  | JBool true => "true"
  | JBool false => "false"
  | JNum n => pretty n
  | JStr s => s
  | _ => "[object Object]"
  end.

Definition createPrefix (prefix : JsValue) (route : string) : string :=
  match prefix with
  | JStr "/" => route
  | JStr p => p +:+ route
  | _ => route
  end.

End Sample.

(** ** The router *)

Section KoaRestRouter.

(** Collaborators outside this repository, kept opaque: the inflection
    library, the runtime's conversion of a non-string value to a string, and
    the base router's composition of a route with the active prefix. *)
Variables pluralize singularize : string → string.
Variable ToString : JsValue → string.
Variable createPrefix : JsValue → string → string.

(** [o[k]] for a computed key. *)
Definition to_property_key (k : JsValue) : string :=
  match k with
  | JStr s => s
  | v => ToString v
  end.

Definition get_member (o : gmap string JsValue) (k : JsValue) : JsValue :=
  get_prop o (to_property_key k).

(** Modelled from the spec: the descriptor [createRoute] builds.  The verb
    token is normalised to upper case ([post] gives POST), the path pattern is
    kept and composed with the active prefix, the handler(s) become the
    handler sequence. *)
Definition route_object (o : Options.t) (method route : string)
    (fns : JsValue) : Route.t :=
  let prefix := get_prop (Options.rest o) "prefix" in
  Route.mk prefix (createPrefix prefix route) route
    (toUpperCase method) (utils.arrayify fns).

(** Modelled from the spec: [createRoute] belongs to the base router, which
    is not under src/.  It builds the descriptor of one route from a verb, a
    path pattern and the handler(s), and registers nothing; a verb that is
    not a string is a type error. *)
Definition createRoute (method : JsValue) (route : string) (fns : JsValue)
  : M Route.t :=
  λ st, match method with
        | JStr m => Ok (route_object (options st) m route fns) st
        | _ => Throw (TypeError "expect method be string") st
        end.

(** Lines 451-458 of [createResource]: the parameter shift for a
    controller-only call, and the fallback of the name to the root marker. *)
Definition shift_arguments (name ctrl opts : JsValue)
  : string * JsValue * JsValue :=
  let '(name, ctrl, opts) :=
    if String.eqb (typeof name) "object"
    then (JStr "/", name, ctrl)
    else (name, ctrl, opts) in
  let name := match name with JStr s => s | _ => "/" end in
  (name, ctrl, opts).

(** Lines 459-465: the route segment and the parameter name. *)
Definition strip_slash (name : string) : string :=
  if starts_with_slash name then slice1 name else name.

Definition route_segment (name : string) : string :=
  if negb (String.eqb name "/") then pluralize (strip_slash name)
  else EmptyString.

Definition param_name (name : string) : string :=
  if negb (String.eqb name "/") then ":" +:+ singularize (strip_slash name)
  else ":id".

(** Line 496: the [name] a table is filed under. *)
Definition table_name (route : string) : string :=
  if String.eqb route EmptyString then "/" else route.

Definition createResource (name ctrl opts : JsValue) : M ref :=
  let '(name, ctrl, opts) := shift_arguments name ctrl opts in
  let route := route_segment name in
  let param := param_name name in
  do! modify (λ this, set_options (utils.mergeOptions (options this) opts) this) in
  let ctrl := utils.extend utils.defaultController ctrl in
  let! this := get in
  (* map request methods to be used *)
  let _get := get_prop (Options.methods (options this)) "get" in
  let _put := get_prop (Options.methods (options this)) "put" in
  let _del := js_or (get_prop (Options.methods (options this)) "del")
                    (get_prop (Options.methods (options this)) "delete") in
  let _post := get_prop (Options.methods (options this)) "post" in
  (* map controller methods to be called *)
  let _index := get_prop (Options.map (options this)) "index" in
  let _new := get_prop (Options.map (options this)) "new" in
  let _create := get_prop (Options.map (options this)) "create" in
  let _show := get_prop (Options.map (options this)) "show" in
  let _edit := get_prop (Options.map (options this)) "edit" in
  let _update := get_prop (Options.map (options this)) "update" in
  let _remove := get_prop (Options.map (options this)) "remove" in
  (* create RESTful routes *)
  let! src := new_array Arr.empty in
  let! x := createRoute _get (utils.r route None None) (get_member ctrl _index) in
  do! update_array src (Arr.push x) in
  let! x := createRoute _get (utils.r route (Some "new") None) (get_member ctrl _new) in
  do! update_array src (Arr.push x) in
  let! x := createRoute _post (utils.r route None None) (get_member ctrl _create) in
  do! update_array src (Arr.push x) in
  let! x := createRoute _get (utils.r route (Some param) None) (get_member ctrl _show) in
  do! update_array src (Arr.push x) in
  let! x := createRoute _get (utils.r route (Some param) (Some "edit")) (get_member ctrl _edit) in
  do! update_array src (Arr.push x) in
  let! x := createRoute _put (utils.r route (Some param) None) (get_member ctrl _update) in
  do! update_array src (Arr.push x) in
  let! x := createRoute _del (utils.r route (Some param) None) (get_member ctrl _remove) in
  do! update_array src (Arr.push x) in
  (* add them to cache *)
  do! update_array src (Arr.set_name (table_name route)) in
  do! modify (λ this, set_resources (resources this ++ [src]) this) in
  ret src.

(** An argument of [addRoutes]: an array, which [concat] spreads, or a
    single route object, which it appends as it is. *)
Inductive Arg :=
| ArgArray (p : ref)
| ArgRoute (x : Route.t).

(** [acc.concat(...arguments)] *)
Fixpoint Array_concat (acc : list Route.t) (arguments : list Arg)
  : M (list Route.t) :=
  match arguments with
  | [] => ret acc
  | ArgArray p :: rest =>
      let! a := read_array p in Array_concat (acc ++ Arr.items a) rest
  | ArgRoute x :: rest => Array_concat (acc ++ [x]) rest
  end.

Definition addRoutes (arguments : list Arg) : M unit :=
  let! this := get in
  let! rs := Array_concat (routes this) arguments in
  modify (set_routes rs).

Definition getRoutes : M (list Route.t) :=
  let! this := get in ret (routes this).

Definition addResource (resource : ref) : M unit :=
  addRoutes [ArgArray resource].

Definition resource_ (name ctrl opts : JsValue) : M unit :=
  let! resource := createResource name ctrl opts in
  addResource resource.

Definition addResources (arguments : list Arg) : M unit :=
  addRoutes arguments.

Definition getResources : M (list ref) :=
  let! this := get in ret (resources this).

(** The [name] property of the array at [p], if any. *)
Definition name_of (h : list Arr.t) (p : ref) : option string :=
  h !! p ≫= Arr.name.

(** [resource.name === name] *)
Definition name_is (h : list Arr.t) (p : ref) (name : JsValue) : bool :=
  match name_of h p, name with
  | Some n, JStr s => String.eqb n s
  | None, JUndefined => true
  | _, _ => false
  end.

(** The loop of [getResource]: [None] is the initial [null]. *)
Fixpoint getResource_loop (h : list Arr.t) (name : JsValue)
    (resources : list ref) : option ref :=
  match resources with
  | [] => None
  | resource :: rest =>
      if name_is h resource name then Some resource
      else getResource_loop h name rest
  end.

Definition getResource (name : JsValue) : M (option ref) :=
  let! this := get in
  ret (getResource_loop (heap this) name (resources this)).

(** [src[idx]], when [src] is an array that has such an element. *)
Definition source_at (h : list Arr.t) (src : option ref) (idx : nat)
  : option Route.t :=
  p ← src; a ← h !! p; Arr.items a !! idx.

(** Modelled from the spec: the descriptor [utils.createRouteObject] builds.
    It keeps the verb of the destination, its path is the destination path
    followed by the path of the source, and its handlers are those of the
    source. *)
Definition merge_route (o : Options.t) (dest s : Route.t) : Route.t :=
  let prefix := get_prop (Options.rest o) "prefix" in
  let pathname := Route.route dest +:+ Route.route s in
  Route.mk prefix (createPrefix prefix pathname) pathname
    (Route.method dest) (Route.middlewares s).

(** Modelled from the spec: [utils.createRouteObject] is not under src/.
    It merges the destination route with [src[idx]]; reading [src[idx]] of a
    source that is missing, or has no such element, is a type error. *)
Definition createRouteObject (dest : Route.t) (src : option ref) (idx : nat)
  : M Route.t :=
  λ st, match source_at (heap st) src idx with
        | Some s => Ok (merge_route (options st) dest s) st
        | None => Throw (TypeError "cannot read property of undefined") st
        end.

(** [array.map((x, index) => f x index)], from index [i] on. *)
Fixpoint map_index {A B} (f : A → nat → M B) (l : list A) (i : nat)
  : M (list B) :=
  match l with
  | [] => ret []
  | x :: l' =>
      let! y := f x i in
      let! ys := map_index f l' (S i) in
      ret (y :: ys)
  end.

(** The callback of [group], for one destination route. *)
Definition group_route (src1 src2 src3 src4 : option ref)
    (destRoute : Route.t) (index : nat) : M Route.t :=
  let! route := createRouteObject destRoute src1 index in
  let! route := if src2 is Some _
                then createRouteObject route src2 index else ret route in
  let! route := if src3 is Some _
                then createRouteObject route src3 index else ret route in
  let! route := if src4 is Some _
                then createRouteObject route src4 index else ret route in
  ret route.

Definition group (dest : ref) (src1 src2 src3 src4 : option ref) : M ref :=
  let! d := read_array dest in
  let! rs := map_index (group_route src1 src2 src3 src4) (Arr.items d) 0 in
  new_array (Arr.mk rs None).

(** How a call binds its arguments: the formal parameter at position [k]
    receives the argument at position [k], and [undefined] when the call
    passed fewer. *)
Definition formal {A} (arguments : list (option A)) (k : nat) : option A :=
  mjoin (arguments !! k).

(** A call [group(dest, ...sources)] with any number of sources.  Line 618
    declares the formal parameters [dest], [src1], [src2], [src3], [src4],
    and lines 619-625 read the sources through these names alone, never
    through [arguments]. *)
Definition group_apply (dest : ref) (sources : list (option ref)) : M ref :=
  group dest (formal sources 0) (formal sources 1)
        (formal sources 2) (formal sources 3).

(** The state a call leaves behind, whether it returns or throws. *)
Definition final {A} (r : Result A) : State :=
  match r with
  | Ok _ st => st
  | Throw _ st => st
  end.

(** The array a call returned, as the store has it afterwards. *)
Definition table_of (r : Result ref) : option Arr.t :=
  match r with
  | Ok a st => heap st !! a
  | Throw _ _ => None
  end.

(** Modelled from the spec: the constructor of the base router is not under
    src/.  It keeps the options it is given, over a default prefix [/], and
    starts with no routes. *)
Definition Router (options : Options.t) (h : list Arr.t) : State :=
  mkState h
    (Options.mk (Options.methods options) (Options.map options)
       (Options.rest options ∪ {[ "prefix" := JStr "/" ]}))
    [] [].

Definition KoaRestRouter (options : JsValue) (h : list Arr.t) : State :=
  set_resources []
    (Router (utils.mergeOptions
               (Options.mk utils.defaultRequestMethods
                  utils.defaultControllerMap ∅) options) h).

(** ** The table [createResource] builds, in closed form *)

(** The verb tokens [createResource] resolves, in the order of the table. *)
Definition verb_tokens (o : Options.t) : list JsValue :=
  let _get := get_prop (Options.methods o) "get" in
  let _put := get_prop (Options.methods o) "put" in
  let _del := js_or (get_prop (Options.methods o) "del")
                    (get_prop (Options.methods o) "delete") in
  let _post := get_prop (Options.methods o) "post" in
  [_get; _get; _post; _get; _get; _put; _del].

(** The seven canonical actions, in the order of the table. *)
Definition actions : list string :=
  ["index"; "new"; "create"; "show"; "edit"; "update"; "remove"].

(** The path patterns, in the order of the table. *)
Definition path_patterns (route param : string) : list string :=
  [utils.r route None None; utils.r route (Some "new") None;
   utils.r route None None; utils.r route (Some param) None;
   utils.r route (Some param) (Some "edit");
   utils.r route (Some param) None; utils.r route (Some param) None].

(** The handlers of an action: [ctrl[map[action]]]. *)
Definition action_handlers (o : Options.t) (ctrl : gmap string JsValue)
    (action : string) : JsValue :=
  get_member ctrl (get_prop (Options.map o) action).

Definition is_string (v : JsValue) : bool :=
  match v with JStr _ => true | _ => false end.

Definition string_of (v : JsValue) : string :=
  match v with JStr s => s | _ => EmptyString end.

(** The configuration names a verb, as a string, for every action. *)
Definition verbs_ok (o : Options.t) : bool := forallb is_string (verb_tokens o).

Definition zip3 {A B C D} (f : A → B → C → D)
    (l1 : list A) (l2 : list B) (l3 : list C) : list D :=
  zip_with (λ ab c, f ab.1 ab.2 c) (zip l1 l2) l3.

Definition resource_routes (o : Options.t) (name : string)
    (ctrl : gmap string JsValue) : list Route.t :=
  zip3 (λ verb pattern action,
          route_object o (string_of verb) pattern (action_handlers o ctrl action))
       (verb_tokens o)
       (path_patterns (route_segment name) (param_name name))
       actions.

Definition resource_table (o : Options.t) (name : string)
    (ctrl : gmap string JsValue) : Arr.t :=
  Arr.mk (resource_routes o name ctrl) (Some (table_name (route_segment name))).

(** ** What [group] is given *)

(** The sources a call provides: the first one, and those of the three
    optional ones that are given. *)
Definition provided (src1 : ref) (src2 src3 src4 : option ref) : list ref :=
  src1 :: omap id [src2; src3; src4].

(** Their descriptors at index [i], in argument order. *)
Definition sources_at (h : list Arr.t) (ps : list ref) (i : nat)
  : list Route.t :=
  omap (λ p, source_at h (Some p) i) ps.

(** A source the store knows, with at least [n] descriptors. *)
Definition long_enough (h : list Arr.t) (n : nat) (p : ref) : Prop :=
  ∃ a, h !! p = Some a ∧ n ≤ length (Arr.items a).

#[global] Instance long_enough_dec h n p : Decision (long_enough h n p).
Proof.
  unfold long_enough. destruct (h !! p) as [a|].
  - destruct (decide (n ≤ length (Arr.items a))) as [Hle|Hgt].
    + left. eauto.
    + right. intros (a' & [= <-] & Hle). done.
  - right. intros (a' & Ha & _). done.
Defined.

(** ** What the registries receive *)

(** The route objects an argument of [addRoutes] contributes. *)
Definition arg_routes (h : list Arr.t) (a : Arg) : list Route.t :=
  match a with
  | ArgArray p => from_option Arr.items [] (h !! p)
  | ArgRoute x => [x]
  end.

(** All of them, in argument order. *)
Definition spread (h : list Arr.t) (arguments : list Arg) : list Route.t :=
  arguments ≫= arg_routes h.

(** An argument that is an array is one the store knows. *)
Definition valid_arg (h : list Arr.t) (a : Arg) : Prop :=
  match a with
  | ArgArray p => is_Some (h !! p)
  | ArgRoute _ => True
  end.

#[global] Instance valid_arg_dec h a : Decision (valid_arg h a).
Proof. destruct a; simpl; apply _. Defined.

(** [keeps f m]: running [m] never changes the component [f] of the state,
    whether [m] returns or throws. *)
Definition keeps {A X} (f : State → X) (m : M A) : Prop :=
  ∀ st, f (final (m st)) = f st.

(** ** The router as a state machine *)

(** A method call on the router. *)
Inductive Call :=
| CallCreateResource (name ctrl opts : JsValue)
| CallResource (name ctrl opts : JsValue)
| CallAddRoutes (arguments : list Arg)
| CallAddResources (arguments : list Arg)
| CallAddResource (resource : ref)
| CallGetRoutes
| CallGetResources
| CallGetResource (name : JsValue)
| CallGroup (dest : ref) (src1 src2 src3 src4 : option ref).

(** The state a call leaves behind, whether it returns or throws. *)
Definition run (c : Call) (st : State) : State :=
  match c with
  | CallCreateResource name ctrl opts => final (createResource name ctrl opts st)
  | CallResource name ctrl opts => final (resource_ name ctrl opts st)
  | CallAddRoutes arguments => final (addRoutes arguments st)
  | CallAddResources arguments => final (addResources arguments st)
  | CallAddResource resource => final (addResource resource st)
  | CallGetRoutes => final (getRoutes st)
  | CallGetResources => final (getResources st)
  | CallGetResource name => final (getResource name st)
  | CallGroup dest src1 src2 src3 src4 =>
      final (group dest src1 src2 src3 src4 st)
  end.

(** The states of a router: as constructed, over any store, and after any
    sequence of method calls. *)
Inductive reachable : State → Prop :=
| reachable_new options h : reachable (KoaRestRouter options h)
| reachable_run c st : reachable st → reachable (run c st).

(** An array that carries a [name], and not the empty one. *)
Definition named (a : Arr.t) : Prop :=
  ∃ n, Arr.name a = Some n ∧ n ≠ EmptyString.

#[global] Instance named_dec a : Decision (named a).
Proof.
  unfold named. destruct (Arr.name a) as [n|].
  - destruct (decide (n = EmptyString)) as [Heq|Hne].
    + right. intros (n' & [= <-] & Hn). done.
    + left. by exists n.
  - right. intros (n' & Hn & _). done.
Defined.

(** The array at [p] is a table as [createResource] files them: seven routes
    and a name. *)
Definition filed_table (h : list Arr.t) (p : ref) : Prop :=
  ∃ a, h !! p = Some a ∧ length (Arr.items a) = 7 ∧ named a.

#[global] Instance filed_table_dec h p : Decision (filed_table h p).
Proof.
  unfold filed_table. destruct (h !! p) as [a|].
  - destruct (decide (length (Arr.items a) = 7 ∧ named a)) as [Hyes|Hno].
    + left. exists a. by destruct Hyes.
    + right. intros (a' & [= <-] & Hlen & Hname). by apply Hno.
  - right. intros (a' & Ha & _). done.
Defined.

(** Every reference in [resources] is to such a table, and none occurs
    twice. *)
Definition registry_ok (st : State) : Prop :=
  Forall (filed_table (heap st)) (resources st) ∧ NoDup (resources st).

(** What a call may do to the state: the store and the two registries only
    grow at their ends, and [resources] grows by at most the one table
    allocated at the next free address. *)
Definition extends (st st' : State) : Prop :=
  (∃ more, heap st' = heap st ++ more)
  ∧ (∃ more, routes st' = routes st ++ more)
  ∧ (resources st' = resources st
     ∨ ∃ tbl,
         heap st' = heap st ++ [tbl]
         ∧ resources st' = resources st ++ [length (heap st)]
         ∧ length (Arr.items tbl) = 7
         ∧ named tbl).

(** Grouping one source at a time: [group(group(group(dest, s1), s2), ...)]. *)
Fixpoint group_chain (dest : ref) (sources : list ref) : M ref :=
  match sources with
  | [] => ret dest
  | s :: sources' =>
      let! grouped := group dest (Some s) None None None in
      group_chain grouped sources'
  end.

(** ** Stepping through the store *)

Lemma bind_modify {B} (g : State → State) (k : unit → M B) st :
  bind (modify g) k st = k tt (g st).
Proof. reflexivity. Qed.

Lemma update_array_new h o rs res a f :
  update_array (length h) f (mkState (h ++ [a]) o rs res)
  = Ok tt (mkState (h ++ [f a]) o rs res).
Proof.
  unfold update_array, set_heap; simpl.
  rewrite list_lookup_middle by done.
  rewrite insert_app_r_alt by lia.
  by rewrite Nat.sub_diag.
Qed.

Lemma verbs_ok_strings o :
  verbs_ok o = true →
  ∃ g po pu d,
    get_prop (Options.methods o) "get" = JStr g
    ∧ get_prop (Options.methods o) "post" = JStr po
    ∧ get_prop (Options.methods o) "put" = JStr pu
    ∧ js_or (get_prop (Options.methods o) "del")
            (get_prop (Options.methods o) "delete") = JStr d.
Proof.
  unfold verbs_ok, verb_tokens; simpl.
  repeat rewrite andb_true_iff.
  intros (Hg & _ & Hpo & _ & _ & Hpu & Hd & _).
  destruct (get_prop (Options.methods o) "get"); try discriminate.
  destruct (get_prop (Options.methods o) "post"); try discriminate.
  destruct (get_prop (Options.methods o) "put"); try discriminate.
  destruct (js_or _ _); try discriminate.
  eauto 10.
Qed.

(** With a verb for every action, [createResource] returns the address of
    a fresh array holding the table, and files it. *)
Lemma createResource_ok name ctrl opts st :
  let '(name', ctrl', opts') := shift_arguments name ctrl opts in
  let o := utils.mergeOptions (options st) opts' in
  verbs_ok o = true →
  createResource name ctrl opts st
  = Ok (length (heap st))
      (mkState
         (heap st ++ [resource_table o name'
                        (utils.extend utils.defaultController ctrl')])
         o (routes st) (resources st ++ [length (heap st)])).
Proof.
  unfold createResource.
  destruct (shift_arguments name ctrl opts) as [[name' ctrl'] opts'].
  intros Hok. destruct (verbs_ok_strings _ Hok) as (g & po & pu & d & Hg & Hpo & Hpu & Hd).
  destruct st as [h o0 rs res].
  unfold bind, modify, get, new_array, createRoute, ret, set_options,
    set_resources, set_heap; simpl in *.
  rewrite Hg, Hpo, Hpu, Hd.
  repeat (rewrite update_array_new; simpl).
  unfold resource_table, resource_routes, verb_tokens, zip3; simpl.
  by rewrite Hg, Hpo, Hpu, Hd.
Qed.


(** ** What a computation leaves untouched *)

Lemma keeps_ret {A X} (f : State → X) (a : A) : keeps f (ret a).
Proof. by intros st. Qed.

Lemma keeps_get {X} (f : State → X) : keeps f get.
Proof. by intros st. Qed.

Lemma keeps_bind {A B X} (f : State → X) (m : M A) (k : A → M B) :
  keeps f m → (∀ a, keeps f (k a)) → keeps f (bind m k).
Proof.
  intros Hm Hk st. unfold bind. specialize (Hm st).
  destruct (m st) as [a st'|e st']; simpl in *; [|done].
  by rewrite Hk.
Qed.

Lemma keeps_modify {X} (f : State → X) (g : State → State) :
  (∀ st, f (g st) = f st) → keeps f (modify g).
Proof. intros H st. apply H. Qed.

Lemma keeps_createRoute {X} (f : State → X) method route fns :
  keeps f (createRoute method route fns).
Proof. intros st. unfold createRoute. by destruct method. Qed.

Lemma keeps_new_array {X} (f : State → X) a :
  (∀ h st, f (set_heap h st) = f st) → keeps f (new_array a).
Proof. intros H st. apply H. Qed.

Lemma keeps_update_array {X} (f : State → X) p g :
  (∀ h st, f (set_heap h st) = f st) → keeps f (update_array p g).
Proof.
  intros H st. unfold update_array.
  destruct (heap st !! p); simpl; [apply H|done].
Qed.

Lemma keeps_read_array {X} (f : State → X) p : keeps f (read_array p).
Proof. intros st. unfold read_array. by destruct (heap st !! p). Qed.

Ltac keeps_step :=
  first
    [ apply keeps_ret | apply keeps_get | apply keeps_createRoute
    | apply keeps_read_array
    | apply keeps_new_array; done
    | apply keeps_update_array; done
    | apply keeps_modify; done
    | apply keeps_bind; [|intros ?] ].

(** [createResource] never touches [this.routes]. *)
Lemma createResource_keeps_routes name ctrl opts :
  keeps routes (createResource name ctrl opts).
Proof.
  unfold createResource.
  destruct (shift_arguments name ctrl opts) as [[name' ctrl'] opts'].
  repeat keeps_step.
Qed.

Lemma Array_concat_ok args : ∀ acc st,
  Forall (valid_arg (heap st)) args →
  Array_concat acc args st = Ok (acc ++ spread (heap st) args) st.
Proof.
  induction args as [|[p|x] args IH]; intros acc st Hv.
  - unfold spread; simpl. by rewrite app_nil_r.
  - apply Forall_cons in Hv as [[a Ha] Hv].
    simpl. unfold bind, read_array. rewrite Ha.
    rewrite IH by done. simpl.
    by rewrite <- app_assoc.
  - apply Forall_cons in Hv as [_ Hv].
    simpl. rewrite IH by done. simpl.
    by rewrite <- app_assoc.
Qed.

Lemma spread_single h p a :
  h !! p = Some a → spread h [ArgArray p] = Arr.items a.
Proof. intros Hp. unfold spread; simpl. rewrite Hp; simpl. apply app_nil_r. Qed.

Lemma addRoutes_ok args st :
  Forall (valid_arg (heap st)) args →
  addRoutes args st
  = Ok tt (set_routes (routes st ++ spread (heap st) args) st).
Proof.
  intros Hv. unfold addRoutes, bind, get.
  by rewrite Array_concat_ok.
Qed.

(** Once the options are merged, the rest of [createResource] leaves them
    alone: the merge is what every call ends with, returning or not. *)
Lemma createResource_options name ctrl opts st :
  options (final (createResource name ctrl opts st))
  = utils.mergeOptions (options st) (shift_arguments name ctrl opts).2.
Proof.
  unfold createResource.
  destruct (shift_arguments name ctrl opts) as [[name' ctrl'] opts']; simpl.
  unfold bind at 1, modify at 1.
  match goal with
  | |- options (final (?m ?s)) = _ =>
      assert (keeps options m) as ->; [|done]
  end.
  repeat keeps_step.
Qed.


(** ** Facts about the modelled helpers *)

Lemma mergeOptions_undefined o : utils.mergeOptions o JUndefined = o.
Proof.
  destruct o as [m c r]. unfold utils.mergeOptions; simpl.
  unfold get_prop; rewrite !lookup_empty; simpl.
  by rewrite !delete_empty, !(left_id_L ∅ (∪)).
Qed.

Lemma shift_arguments_single n name ctrl opts :
  shift_arguments n JUndefined JUndefined = (name, ctrl, opts) →
  opts = JUndefined.
Proof. unfold shift_arguments. destruct n; simpl; congruence. Qed.

Lemma append_cons c (s t : string) : String c s +:+ t = String c (s +:+ t).
Proof. reflexivity. Qed.

Lemma append_nil_l (t : string) : EmptyString +:+ t = t.
Proof. reflexivity. Qed.

Lemma append_empty_r (s : string) : s +:+ EmptyString = s.
Proof.
  induction s as [|c s IH]; [done|]. by rewrite append_cons, IH.
Qed.

Ltac norm_strings :=
  rewrite ?append_cons, ?append_nil_l, ?append_empty_r; simpl.

Lemma r_segment route :
  route ≠ EmptyString →
  ∀ param,
    path_patterns route param
    = ["/" +:+ route; "/" +:+ route +:+ "/new"; "/" +:+ route;
       "/" +:+ route +:+ "/" +:+ param;
       "/" +:+ route +:+ "/" +:+ param +:+ "/edit";
       "/" +:+ route +:+ "/" +:+ param; "/" +:+ route +:+ "/" +:+ param].
Proof.
  intros Hne param. unfold path_patterns, utils.r.
  destruct (String.eqb_spec route EmptyString) as [|_]; [done|].
  by norm_strings.
Qed.

Lemma r_root param :
  path_patterns EmptyString param
  = ["/"; "/new"; "/"; "/" +:+ param; "/" +:+ param +:+ "/edit";
     "/" +:+ param; "/" +:+ param].
Proof.
  unfold path_patterns, utils.r; simpl.
  norm_strings.
  destruct param; by norm_strings.
Qed.

Lemma resource_table_items o name ctrl :
  Arr.items (resource_table o name ctrl) = resource_routes o name ctrl.
Proof. done. Qed.

Lemma resource_routes_length o name ctrl :
  length (resource_routes o name ctrl) = 7.
Proof. done. Qed.

Lemma resource_routes_route o name ctrl :
  Route.route <$> resource_routes o name ctrl
  = path_patterns (route_segment name) (param_name name).
Proof. done. Qed.

Lemma resource_routes_method o name ctrl :
  Route.method <$> resource_routes o name ctrl
  = (λ v, toUpperCase (string_of v)) <$> verb_tokens o.
Proof. done. Qed.

Lemma resource_routes_middlewares o name ctrl :
  Route.middlewares <$> resource_routes o name ctrl
  = (λ action, utils.arrayify (action_handlers o ctrl action)) <$> actions.
Proof. done. Qed.

Lemma get_prop_Some (m : gmap string JsValue) k v :
  v ≠ JUndefined → get_prop m k = v → m !! k = Some v.
Proof.
  unfold get_prop. destruct (m !! k); simpl; congruence.
Qed.

Lemma get_prop_union_l (m1 m2 : gmap string JsValue) k v :
  v ≠ JUndefined → get_prop m1 k = v → get_prop (m1 ∪ m2) k = v.
Proof.
  intros Hv Hk. apply get_prop_Some in Hk; [|done].
  unfold get_prop. by rewrite (lookup_union_Some_l _ _ _ _ Hk).
Qed.

Lemma get_prop_union_r (m1 m2 : gmap string JsValue) k :
  m2 !! k = None → get_prop (m1 ∪ m2) k = get_prop m1 k.
Proof.
  intros Hk. unfold get_prop. rewrite lookup_union, Hk.
  by destruct (m1 !! k).
Qed.

(** The override wins per key. *)
Lemma lookup_overlay (m1 m2 : gmap string JsValue) k :
  (m1 ∪ m2) !! k = match m1 !! k with Some v => Some v | None => m2 !! k end.
Proof.
  rewrite lookup_union. destruct (m1 !! k), (m2 !! k); done.
Qed.

Lemma spread_length h args :
  length (spread h args) = sum_list (length ∘ arg_routes h <$> args).
Proof.
  unfold spread. induction args as [|a args IH]; [done|].
  rewrite bind_cons, length_app, IH. by rewrite fmap_cons.
Qed.

Lemma name_is_spec h p s :
  name_is h p (JStr s) = true ↔ name_of h p = Some s.
Proof.
  unfold name_is. destruct (name_of h p) as [n|]; [|done].
  destruct (String.eqb_spec n s); split; congruence.
Qed.

(** The loop of [getResource] stops at the first table of that name. *)
Lemma getResource_loop_spec h s rs :
  match getResource_loop h (JStr s) rs with
  | Some p =>
      ∃ i, rs !! i = Some p
           ∧ name_of h p = Some s
           ∧ ∀ j q, j < i → rs !! j = Some q → name_of h q ≠ Some s
  | None => ∀ q, q ∈ rs → name_of h q ≠ Some s
  end.
Proof.
  induction rs as [|q rs IH]; simpl.
  - intros q Hq. by apply elem_of_nil in Hq.
  - destruct (name_is h q (JStr s)) eqn:Hq.
    + apply name_is_spec in Hq. exists 0. split_and!; [done|done|].
      intros j q' Hj. lia.
    + assert (name_of h q ≠ Some s) as Hne.
      { intros Hn. apply name_is_spec in Hn. congruence. }
      destruct (getResource_loop h (JStr s) rs) as [p|].
      * destruct IH as (i & Hi & Hp & Hbefore).
        exists (S i). split_and!; [done|done|].
        intros [|j] q' Hj Hq'; simpl in Hq'; [congruence|].
        apply (Hbefore j); [lia|done].
      * intros q' [->|Hq']%elem_of_cons; [done|by apply IH].
Qed.

(** After a table named [s] is stored at the next free address and filed
    last, the loop finds that very address, provided no table filed before
    has the name. *)
Lemma getResource_loop_new h tbl s rs :
  Arr.name tbl = Some s →
  (∀ q, q ∈ rs → name_of h q ≠ Some s) →
  getResource_loop (h ++ [tbl]) (JStr s) (rs ++ [length h])
  = Some (length h).
Proof.
  intros Hname. induction rs as [|q rs IH]; intros Hrs; simpl.
  - assert (name_is (h ++ [tbl]) (length h) (JStr s) = true) as ->; [|done].
    apply name_is_spec. unfold name_of.
    by rewrite list_lookup_middle.
  - destruct (name_is (h ++ [tbl]) q (JStr s)) eqn:Hq.
    + apply name_is_spec in Hq. f_equal.
      destruct (decide (q < length h)) as [Hlt|Hge].
      * exfalso. apply (Hrs q); [left|].
        unfold name_of in *. by rewrite lookup_app_l in Hq.
      * destruct (decide (q = length h)) as [->|Hne]; [done|].
        unfold name_of in Hq. rewrite lookup_ge_None_2 in Hq; [done|].
        rewrite length_app; simpl. lia.
    + apply IH. intros q' Hq'. apply Hrs. by right.
Qed.

(** ** Folding sources over a destination route *)

Lemma foldl_merge_method o ss : ∀ d,
  Route.method (foldl (merge_route o) d ss) = Route.method d.
Proof. induction ss as [|s ss IH]; intros d; simpl; [done|by rewrite IH]. Qed.

Lemma foldl_merge_route o ss : ∀ d,
  Route.route (foldl (merge_route o) d ss)
  = foldl (λ acc s, acc +:+ Route.route s) (Route.route d) ss.
Proof. induction ss as [|s ss IH]; intros d; simpl; [done|by rewrite IH]. Qed.

Lemma foldl_merge_middlewares o ss : ∀ d,
  ss ≠ [] →
  Some (Route.middlewares (foldl (merge_route o) d ss))
  = Route.middlewares <$> last ss.
Proof.
  induction ss as [|s ss IH]; intros d Hne; [done|].
  destruct ss as [|s' ss]; [done|].
  rewrite last_cons_cons. simpl foldl. simpl in IH. by rewrite IH.
Qed.

Lemma sources_at_valid h n ps i :
  Forall (long_enough h n) ps → i < n →
  Forall2 (λ p s, source_at h (Some p) i = Some s) ps (sources_at h ps i).
Proof.
  intros Hps Hi. induction Hps as [|p ps (a & Ha & Hn) _ IH]; simpl.
  - constructor.
  - destruct (lookup_lt_is_Some_2 (Arr.items a) i) as [x Hx]; [lia|].
    unfold sources_at; simpl. rewrite Ha; simpl. rewrite Hx; simpl.
    constructor; [|done]. by rewrite Ha; simpl.
Qed.

Lemma createRouteObject_ok d p i s st :
  source_at (heap st) (Some p) i = Some s →
  createRouteObject d (Some p) i st = Ok (merge_route (options st) d s) st.
Proof. intros Hs. unfold createRouteObject. by rewrite Hs. Qed.

(** The callback of [group] folds the provided sources, in argument order,
    over the destination route. *)
Lemma group_route_ok st src1 src2 src3 src4 d i ss :
  Forall2 (λ p s, source_at (heap st) (Some p) i = Some s)
    (provided src1 src2 src3 src4) ss →
  group_route (Some src1) src2 src3 src4 d i st
  = Ok (foldl (merge_route (options st)) d ss) st.
Proof.
  unfold provided, group_route, bind, ret.
  intros Hss.
  apply Forall2_cons_inv_l in Hss as (s1 & ss1 & H1 & Hss & ->).
  rewrite (createRouteObject_ok _ _ _ _ _ H1).
  destruct src2 as [p2|], src3 as [p3|], src4 as [p4|];
    cbn [omap list_omap id] in Hss;
    repeat match goal with
      | H : Forall2 _ (_ :: _) _ |- _ =>
          apply Forall2_cons_inv_l in H as (? & ? & ? & H & ->)
      | H : Forall2 _ [] _ |- _ => apply Forall2_nil_inv_l in H as ->
      end;
    repeat match goal with
      | H : source_at _ _ _ = Some _ |- _ =>
          rewrite (createRouteObject_ok _ _ _ _ _ H); clear H
      end;
    done.
Qed.

Lemma map_index_ok {A B} (f : A → nat → M B) (g : nat → A → B) st l : ∀ k,
  (∀ i x, l !! i = Some x → f x (k + i) st = Ok (g (k + i) x) st) →
  map_index f l k st = Ok (imap (λ i, g (k + i)) l) st.
Proof.
  induction l as [|x l IH]; intros k Hf; simpl; [done|].
  unfold bind, ret.
  specialize (Hf 0 x eq_refl) as Hx. rewrite Nat.add_0_r in Hx.
  rewrite Hx, (IH (S k)).
  - rewrite Nat.add_0_r. f_equal. f_equal.
    apply imap_ext. intros i y _; simpl. f_equal. lia.
  - intros i y Hy. replace (S k + i) with (k + S i) by lia. by apply Hf.
Qed.

Lemma createResource_throws name ctrl opts st :
  let '(name', ctrl', opts') := shift_arguments name ctrl opts in
  let o := utils.mergeOptions (options st) opts' in
  verbs_ok o = false →
  ∃ e arr,
    createResource name ctrl opts st
    = Throw e (mkState (heap st ++ [arr]) o (routes st) (resources st)).
Proof.
  unfold createResource.
  destruct (shift_arguments name ctrl opts) as [[name' ctrl'] opts'].
  intros Hok. destruct st as [h o0 rs res].
  unfold verbs_ok, verb_tokens in Hok.
  unfold bind, modify, get, new_array, createRoute, ret, set_options,
    set_resources, set_heap; simpl in *.
  destruct (get_prop _ "get") as [| | | |g| | |] eqn:Hg;
    try (by eexists _, _).
  repeat (rewrite update_array_new; simpl).
  destruct (get_prop _ "post") as [| | | |po| | |] eqn:Hpo;
    try (by eexists _, _).
  repeat (rewrite update_array_new; simpl).
  destruct (get_prop _ "put") as [| | | |pu| | |] eqn:Hpu;
    try (by eexists _, _).
  repeat (rewrite update_array_new; simpl).
  destruct (js_or _ _) as [| | | |d| | |] eqn:Hd;
    try discriminate Hok; by eexists _, _.
Qed.

Lemma group_ok st dest src1 src2 src3 src4 d :
  heap st !! dest = Some d →
  Forall (long_enough (heap st) (length (Arr.items d)))
    (provided src1 src2 src3 src4) →
  group dest (Some src1) src2 src3 src4 st
  = Ok (length (heap st))
      (set_heap
         (heap st
          ++ [Arr.mk
                (imap (λ i di,
                         foldl (merge_route (options st)) di
                           (sources_at (heap st)
                              (provided src1 src2 src3 src4) i))
                   (Arr.items d))
                None])
         st).
Proof.
  intros Hd Hps. unfold group, bind, read_array. rewrite Hd.
  rewrite (map_index_ok _
             (λ i di, foldl (merge_route (options st)) di
                        (sources_at (heap st)
                           (provided src1 src2 src3 src4) i))
             st (Arr.items d) 0); [done|].
  intros i x Hx; simpl. apply group_route_ok.
  eapply sources_at_valid; [done|]. by eapply lookup_lt_Some.
Qed.

(** ** The claims *)

(** C1.  For every resource name [n], [createResource(n)] returns a table of
    exactly seven route descriptors, created in the order index, new,
    create, show, edit, update, remove (the handlers of the i-th descriptor
    are those of the i-th action); under the default configuration their
    verbs are GET, GET, POST, GET, GET, PUT, DELETE; their path patterns are
    [/{route}], [/{route}/new], [/{route}], [/{route}/{param}],
    [/{route}/{param}/edit], [/{route}/{param}], [/{route}/{param}], which
    with an empty segment collapse to [/], [/new], [/], [/{param}],
    [/{param}/edit], [/{param}], [/{param}], that is [/:id] and so on for
    the root resource. *)
Theorem createResource_seven_routes st n name ctrl opts :
  shift_arguments n JUndefined JUndefined = (name, ctrl, opts) →
  verbs_ok (options st) = true →
  let route := route_segment name in
  let param := param_name name in
  let controller := utils.extend utils.defaultController ctrl in
  ∃ tbl st',
    createResource n JUndefined JUndefined st = Ok (length (heap st)) st'
    ∧ heap st' !! length (heap st) = Some tbl
    ∧ length (Arr.items tbl) = 7
    ∧ Route.middlewares <$> Arr.items tbl
      = (λ action,
           utils.arrayify (action_handlers (options st) controller action))
          <$> actions
    ∧ (Options.map (options st) = utils.defaultControllerMap →
       Route.middlewares <$> Arr.items tbl
       = (λ action, utils.arrayify (get_prop controller action)) <$> actions)
    ∧ (Options.methods (options st) = utils.defaultRequestMethods →
       Route.method <$> Arr.items tbl
       = ["GET"; "GET"; "POST"; "GET"; "GET"; "PUT"; "DELETE"])
    ∧ Route.route <$> Arr.items tbl
      = (if decide (route = EmptyString)
         then ["/"; "/new"; "/"; "/" +:+ param; "/" +:+ param +:+ "/edit";
               "/" +:+ param; "/" +:+ param]
         else ["/" +:+ route; "/" +:+ route +:+ "/new"; "/" +:+ route;
               "/" +:+ route +:+ "/" +:+ param;
               "/" +:+ route +:+ "/" +:+ param +:+ "/edit";
               "/" +:+ route +:+ "/" +:+ param;
               "/" +:+ route +:+ "/" +:+ param])
    ∧ (name = "/" →
       Route.route <$> Arr.items tbl
       = ["/"; "/new"; "/"; "/:id"; "/:id/edit"; "/:id"; "/:id"]).
Proof.
  intros Hshift Hok route param controller.
  pose proof (shift_arguments_single _ _ _ _ Hshift) as ->.
  pose proof (createResource_ok n JUndefined JUndefined st) as Hrun.
  rewrite Hshift, mergeOptions_undefined in Hrun.
  specialize (Hrun Hok).
  eexists _, _. split; [exact Hrun|].
  split; [by apply list_lookup_middle|].
  rewrite resource_table_items, resource_routes_middlewares,
    resource_routes_method, resource_routes_route.
  split; [done|].
  split; [done|].
  split.
  { intros Hmap. unfold action_handlers. by rewrite Hmap. }
  split.
  { intros Hm. unfold verb_tokens. by rewrite Hm. }
  split.
  { fold route param.
    destruct (decide (route = EmptyString)) as [->|Hne].
    - apply r_root.
    - by apply r_segment. }
  intros ->. done.
Qed.


(** C3, as amended.  When [name] is an object it becomes the controller
    argument (and [ctrl] the options) and the name falls back to the root
    marker; any other non-string [name] is coerced to the root marker, never
    rejected; the root name yields the route segment [""] and the parameter
    name [:id]; every other string name yields the segment
    [pluralize(n')] and the parameter [":" + singularize(n')], where [n'] is
    the name without its leading [/], if it has one.  [createResource]
    builds its table from exactly these. *)
Theorem createResource_names name ctrl opts :
  (typeof name = "object" →
   shift_arguments name ctrl opts = ("/", name, ctrl))
  ∧ (typeof name ≠ "object" → typeof name ≠ "string" →
     shift_arguments name ctrl opts = ("/", ctrl, opts))
  ∧ (∀ s, name = JStr s → shift_arguments name ctrl opts = (s, ctrl, opts))
  ∧ route_segment "/" = EmptyString
  ∧ param_name "/" = ":id"
  ∧ (∀ s, s ≠ "/" →
       route_segment s = pluralize (strip_slash s)
       ∧ param_name s = ":" +:+ singularize (strip_slash s))
  ∧ (∀ s, strip_slash ("/" +:+ s) = s)
  ∧ (∀ s, starts_with_slash s = false → strip_slash s = s)
  ∧ (∀ st name' ctrl' opts',
       shift_arguments name ctrl opts = (name', ctrl', opts') →
       verbs_ok (utils.mergeOptions (options st) opts') = true →
       ∃ tbl st',
         createResource name ctrl opts st = Ok (length (heap st)) st'
         ∧ heap st' !! length (heap st) = Some tbl
         ∧ Arr.name tbl = Some (table_name (route_segment name'))
         ∧ Route.route <$> Arr.items tbl
           = path_patterns (route_segment name') (param_name name')).
Proof.
  split_and!.
  - unfold shift_arguments. by destruct name.
  - unfold shift_arguments. by destruct name.
  - intros s ->. done.
  - done.
  - done.
  - intros s Hs. unfold route_segment, param_name.
    destruct (String.eqb_spec s "/"); done.
  - done.
  - intros s Hs. unfold strip_slash. by rewrite Hs.
  - intros st name' ctrl' opts' Hshift Hok.
    pose proof (createResource_ok name ctrl opts st) as Hrun.
    rewrite Hshift in Hrun. specialize (Hrun Hok).
    eexists _, _. split; [exact Hrun|].
    split; [by apply list_lookup_middle|]. done.
Qed.

(** C4.  Every call to [createResource] leaves [routes] as it was.  When the
    configuration names a verb for each action the call returns the address
    of a new table of seven descriptors, tagged with the route segment, or
    with the root marker [/] when the segment is empty (as it is for the
    name [/]), and it has appended that one table to [resources]; the call
    to [resource] then appends exactly those seven descriptors to [routes]
    and exactly that one table to [resources].  In the one other case the
    base router refuses a verb: both calls throw, and neither registry has
    gained anything. *)
Theorem createResource_registries st name ctrl opts :
  routes (final (createResource name ctrl opts st)) = routes st
  ∧ (∀ name' ctrl' opts',
       shift_arguments name ctrl opts = (name', ctrl', opts') →
       (verbs_ok (utils.mergeOptions (options st) opts') = true →
        ∃ tbl st1 st2,
          createResource name ctrl opts st = Ok (length (heap st)) st1
          ∧ heap st1 !! length (heap st) = Some tbl
          ∧ heap st !! length (heap st) = None
          ∧ length (Arr.items tbl) = 7
          ∧ (route_segment name' = EmptyString → Arr.name tbl = Some "/")
          ∧ (route_segment name' ≠ EmptyString →
             Arr.name tbl = Some (route_segment name'))
          ∧ (name' = "/" → Arr.name tbl = Some "/")
          ∧ resources st1 = resources st ++ [length (heap st)]
          ∧ routes st1 = routes st
          ∧ resource_ name ctrl opts st = Ok tt st2
          ∧ routes st2 = routes st ++ Arr.items tbl
          ∧ length (routes st2) = length (routes st) + 7
          ∧ resources st2 = resources st ++ [length (heap st)]
          ∧ length (resources st2) = length (resources st) + 1
          ∧ heap st2 = heap st1)
       ∧ (verbs_ok (utils.mergeOptions (options st) opts') = false →
          ∃ e st1,
            createResource name ctrl opts st = Throw e st1
            ∧ resource_ name ctrl opts st = Throw e st1
            ∧ routes st1 = routes st
            ∧ resources st1 = resources st)).
Proof.
  split; [apply createResource_keeps_routes|].
  intros name' ctrl' opts' Hshift. split.
  - intros Hok.
    pose proof (createResource_ok name ctrl opts st) as Hrun.
    rewrite Hshift in Hrun. specialize (Hrun Hok).
    set (tbl := resource_table _ _ _) in Hrun.
    set (st1 := mkState _ _ _ _) in Hrun.
    assert (heap st1 !! length (heap st) = Some tbl) as Htbl
      by by apply list_lookup_middle.
    assert (Arr.name tbl = Some (table_name (route_segment name'))) as Hname
      by done.
    exists tbl, st1, (set_routes (routes st ++ Arr.items tbl) st1).
    split; [exact Hrun|].
    split; [done|].
    split; [by apply lookup_ge_None_2|].
    split; [done|].
    split; [intros Hroot; by rewrite Hname, Hroot|].
    split.
    { intros Hseg. rewrite Hname. unfold table_name.
      by destruct (String.eqb_spec (route_segment name') EmptyString). }
    split; [intros ->; by rewrite Hname|].
    do 2 (split; [done|]).
    split.
    { unfold resource_, bind. rewrite Hrun.
      unfold addResource. rewrite addRoutes_ok.
      - by rewrite (spread_single _ _ _ Htbl).
      - by apply Forall_singleton; simpl. }
    split; [done|].
    split; [simpl; by rewrite length_app|].
    split; [done|].
    split; [simpl; rewrite length_app; simpl; lia|done].
  - intros Hbad.
    pose proof (createResource_throws name ctrl opts st) as Hrun.
    rewrite Hshift in Hrun.
    destruct (Hrun Hbad) as (e & arr & Hthrow).
    eexists _, _. split; [exact Hthrow|].
    split; [|done].
    unfold resource_, bind. by rewrite Hthrow.
Qed.


(** C5.  For each of the seven actions, [createResource] resolves the verb
    from the [methods] mapping of the merged configuration, the delete verb
    being [methods.del] when that is set (truthy) and [methods.delete]
    otherwise, and resolves the controller key from the [map] mapping, the
    handlers of the action being [controller[map[action]]].  With
    [methods.put = 'post'] the update descriptor has the verb POST; with
    [map.index = 'list'] the handlers of the index descriptor are those of
    [controller.list]. *)
Theorem createResource_verbs_and_handlers st name ctrl opts name' ctrl' opts' :
  shift_arguments name ctrl opts = (name', ctrl', opts') →
  verbs_ok (utils.mergeOptions (options st) opts') = true →
  let o := utils.mergeOptions (options st) opts' in
  let controller := utils.extend utils.defaultController ctrl' in
  let m := get_prop (Options.methods o) in
  ∃ tbl st',
    createResource name ctrl opts st = Ok (length (heap st)) st'
    ∧ heap st' !! length (heap st) = Some tbl
    ∧ Route.method <$> Arr.items tbl
      = (λ v, toUpperCase (string_of v))
          <$> [m "get"; m "get"; m "post"; m "get"; m "get"; m "put";
               if truthy (m "del") then m "del" else m "delete"]
    ∧ Route.middlewares <$> Arr.items tbl
      = (λ action,
           utils.arrayify
             (get_member controller (get_prop (Options.map o) action)))
          <$> actions
    ∧ (get_prop (own_props (get_prop (own_props opts') "methods")) "put"
       = JStr "post" →
       (Route.method <$> Arr.items tbl) !! 5 = Some "POST")
    ∧ (get_prop (own_props (get_prop (own_props opts') "map")) "index"
       = JStr "list" →
       (Route.middlewares <$> Arr.items tbl) !! 0
       = Some (utils.arrayify (get_prop (own_props ctrl') "list"))).
Proof.
  intros Hshift Hok o controller m.
  pose proof (createResource_ok name ctrl opts st) as Hrun.
  rewrite Hshift in Hrun. specialize (Hrun Hok).
  eexists _, _. split; [exact Hrun|].
  split; [by apply list_lookup_middle|].
  rewrite resource_table_items, resource_routes_middlewares,
    resource_routes_method.
  split; [done|]. split; [done|]. split.
  - intros Hput. unfold verb_tokens; simpl.
    unfold utils.mergeOptions; simpl.
    by rewrite (get_prop_union_l _ _ _ (JStr "post")).
  - intros Hindex. simpl. unfold action_handlers.
    unfold utils.mergeOptions; simpl.
    rewrite (get_prop_union_l _ _ _ (JStr "list")) by done.
    unfold get_member, utils.extend; simpl.
    by rewrite get_prop_union_r.
Qed.

(** C6, as amended.  Every call to [createResource(name, ctrl, opts)] merges
    [opts] into the persistent configuration of the router, the override
    winning per key: [methods] and [map] are merged key by key, every other
    top-level key of [opts] (such as [prefix]) is taken over as it is.  The
    call that follows starts from the merged configuration and builds its
    table from it.  Apart from what the merge puts into the persistent
    options, the configuration passed to a call is not retained: two calls
    whose merges agree have the same outcome. *)
Theorem createResource_merges_options st name ctrl opts :
  let opts' := (shift_arguments name ctrl opts).2 in
  let o := utils.mergeOptions (options st) opts' in
  let st1 := final (createResource name ctrl opts st) in
  options st1 = o
  ∧ (∀ k, Options.methods o !! k
          = match own_props (get_prop (own_props opts') "methods") !! k with
            | Some v => Some v
            | None => Options.methods (options st) !! k
            end)
  ∧ (∀ k, Options.map o !! k
          = match own_props (get_prop (own_props opts') "map") !! k with
            | Some v => Some v
            | None => Options.map (options st) !! k
            end)
  ∧ (∀ k, k ≠ "methods" → k ≠ "map" →
          Options.rest o !! k
          = match own_props opts' !! k with
            | Some v => Some v
            | None => Options.rest (options st) !! k
            end)
  ∧ (∀ name2 ctrl2 opts2 n2 c2 o2,
       shift_arguments name2 ctrl2 opts2 = (n2, c2, o2) →
       options (final (createResource name2 ctrl2 opts2 st1))
       = utils.mergeOptions o o2
       ∧ (verbs_ok (utils.mergeOptions o o2) = true →
          ∃ st2,
            createResource name2 ctrl2 opts2 st1
            = Ok (length (heap st1)) st2
            ∧ heap st2 !! length (heap st1)
              = Some (resource_table (utils.mergeOptions o o2) n2
                        (utils.extend utils.defaultController c2))))
  ∧ (∀ opts2,
       typeof name ≠ "object" →
       utils.mergeOptions (options st) opts2 = o →
       createResource name ctrl opts2 st = createResource name ctrl opts st).
Proof.
  intros opts' o st1.
  assert (options st1 = o) as Hst1 by apply createResource_options.
  split_and!.
  - done.
  - intros k. apply lookup_overlay.
  - intros k. apply lookup_overlay.
  - intros k Hk1 Hk2. unfold o, utils.mergeOptions; simpl.
    rewrite lookup_overlay.
    by rewrite lookup_delete_ne, lookup_delete_ne.
  - intros name2 ctrl2 opts2 n2 c2 o2 Hshift. split.
    + by rewrite createResource_options, Hshift, Hst1.
    + intros Hok.
      pose proof (createResource_ok name2 ctrl2 opts2 st1) as Hrun.
      rewrite Hshift, Hst1 in Hrun. specialize (Hrun Hok).
      eexists. split; [exact Hrun|]. by apply list_lookup_middle.
  - intros opts2 Hname Hmerge. unfold o, opts' in Hmerge.
    unfold createResource.
    assert (∀ x, shift_arguments name ctrl x
                 = ((shift_arguments name ctrl opts).1, x)) as Hshift.
    { intros x. unfold shift_arguments. by destruct name. }
    rewrite (Hshift opts2), (Hshift opts) in *.
    destruct (shift_arguments name ctrl opts).1 as [name' ctrl'].
    simpl in Hmerge.
    etrans; [apply bind_modify|]. symmetry.
    etrans; [apply bind_modify|]. simpl. by rewrite Hmerge.
Qed.


(** C7, as amended.  [createResource] overlays the supplied controller onto
    a default controller whose seven entries are all the 501 responder, and
    for every controller argument (partial, absent, anything) the table is
    built without an exception.  Each of the seven actions has at least one
    handler whenever the entries the controller supplies hold a handler or a
    non-empty sequence of handlers and [map] sends each action to one of
    the seven canonical names or to a key the controller supplies. *)
Theorem createResource_default_handlers st name ctrl opts name' ctrl' opts' :
  shift_arguments name ctrl opts = (name', ctrl', opts') →
  verbs_ok (utils.mergeOptions (options st) opts') = true →
  let o := utils.mergeOptions (options st) opts' in
  let controller := utils.extend utils.defaultController ctrl' in
  (∀ k, controller !! k
        = match own_props ctrl' !! k with
          | Some v => Some v
          | None => utils.defaultController !! k
          end)
  ∧ (∀ k, utils.defaultController !! k
          = if decide (k ∈ actions) then Some (JFun notImplemented) else None)
  ∧ ∃ tbl st',
      createResource name ctrl opts st = Ok (length (heap st)) st'
      ∧ heap st' !! length (heap st) = Some tbl
      ∧ length (Arr.items tbl) = 7
      ∧ ((∀ k v, own_props ctrl' !! k = Some v → utils.arrayify v ≠ []) →
         (∀ action, action ∈ actions →
            let k := to_property_key (get_prop (Options.map o) action) in
            k ∈ actions ∨ is_Some (own_props ctrl' !! k)) →
         Forall (λ x, Route.middlewares x ≠ []) (Arr.items tbl)).
Proof.
  intros Hshift Hok o controller.
  assert (∀ k, utils.defaultController !! k
               = if decide (k ∈ actions) then Some (JFun notImplemented)
                 else None) as Hdefault.
  { intros k. unfold utils.defaultController, actions.
    destruct (decide (k ∈ _)) as [Hin|Hnin].
    - repeat (apply elem_of_cons in Hin as [->|Hin]; [done|]).
      by apply elem_of_nil in Hin.
    - repeat (rewrite lookup_insert_ne;
              [|intros <-; apply Hnin; set_solver]).
      apply lookup_singleton_ne. intros <-. apply Hnin. set_solver. }
  split; [intros k; apply lookup_overlay|].
  split; [done|].
  pose proof (createResource_ok name ctrl opts st) as Hrun.
  rewrite Hshift in Hrun. specialize (Hrun Hok).
  eexists _, _. split; [exact Hrun|].
  split; [by apply list_lookup_middle|].
  split; [done|].
  intros Hentries Hmap.
  rewrite resource_table_items.
  apply (Forall_fmap Route.middlewares (λ l, l ≠ [])).
  rewrite resource_routes_middlewares.
  apply Forall_fmap, Forall_forall. intros action Haction; simpl.
  specialize (Hmap action Haction); simpl in Hmap.
  unfold action_handlers, get_member. fold o.
  set (k := to_property_key _) in *.
  unfold get_prop, utils.extend. rewrite lookup_overlay.
  destruct Hmap as [Hin|[v Hv]].
  - destruct (own_props ctrl' !! _) as [v|] eqn:Hv; simpl.
    + by eapply Hentries.
    + rewrite Hdefault. by rewrite decide_True.
  - rewrite Hv; simpl. by eapply Hentries.
Qed.


(** C8.  For any arrays of descriptors [a] and [b], [addRoutes(a, b)] leaves
    [routes] as its previous contents followed by all elements of [a], then
    all elements of [b], in their order and without deduplication, so its
    length grows by [a.length + b.length]; the same holds for any number of
    arguments, and for the alias [addResources]. *)
Theorem addRoutes_appends st (arguments : list Arg) :
  Forall (valid_arg (heap st)) arguments →
  ∃ st',
    addRoutes arguments st = Ok tt st'
    ∧ addResources arguments st = Ok tt st'
    ∧ routes st' = routes st ++ spread (heap st) arguments
    ∧ length (routes st')
      = length (routes st)
        + sum_list (length ∘ arg_routes (heap st) <$> arguments)
    ∧ heap st' = heap st
    ∧ resources st' = resources st
    ∧ options st' = options st
    ∧ (∀ pa pb a b,
         arguments = [ArgArray pa; ArgArray pb] →
         heap st !! pa = Some a →
         heap st !! pb = Some b →
         routes st' = routes st ++ Arr.items a ++ Arr.items b
         ∧ length (routes st')
           = length (routes st) + length (Arr.items a)
             + length (Arr.items b)).
Proof.
  intros Hv. eexists. split; [by apply addRoutes_ok|].
  split; [by apply addRoutes_ok|]. simpl.
  split; [done|].
  split; [by rewrite length_app, spread_length|].
  do 3 (split; [done|]).
  intros pa pb a b -> Ha Hb. unfold spread; simpl.
  rewrite Ha, Hb; simpl. rewrite app_nil_r.
  split; [done|]. rewrite !length_app. lia.
Qed.

(** C9.  For every name string, [getResource(name)] scans [resources] in
    creation order and returns the first table whose [name] equals the
    string, by reference; when no table matches it returns [null] and raises
    nothing.  The reference it returns for a table just created is the one
    [createResource] returned. *)
Theorem getResource_first_match st (s : string) :
  (∃ res,
     getResource (JStr s) st = Ok res st
     ∧ match res with
       | Some p =>
           ∃ i, resources st !! i = Some p
                ∧ name_of (heap st) p = Some s
                ∧ ∀ j q, j < i → resources st !! j = Some q →
                         name_of (heap st) q ≠ Some s
       | None => ∀ q, q ∈ resources st → name_of (heap st) q ≠ Some s
       end)
  ∧ (∀ name ctrl opts name' ctrl' opts',
       shift_arguments name ctrl opts = (name', ctrl', opts') →
       verbs_ok (utils.mergeOptions (options st) opts') = true →
       s = table_name (route_segment name') →
       (∀ q, q ∈ resources st → name_of (heap st) q ≠ Some s) →
       ∃ a st',
         createResource name ctrl opts st = Ok a st'
         ∧ heap st !! a = None
         ∧ getResource (JStr s) st' = Ok (Some a) st').
Proof.
  split.
  - eexists. split; [reflexivity|]. apply getResource_loop_spec.
  - intros name ctrl opts name' ctrl' opts' Hshift Hok -> Hfresh.
    pose proof (createResource_ok name ctrl opts st) as Hrun.
    rewrite Hshift in Hrun. specialize (Hrun Hok).
    eexists _, _. split; [exact Hrun|].
    split; [by apply lookup_ge_None_2|].
    unfold getResource, bind, get, ret; simpl.
    by rewrite getResource_loop_new.
Qed.

(** C10.  [group] consults at most its first four source arguments.  Every
    call, returning or throwing, does what the call with only the first four
    sources does.  Where the destination and the first four sources are
    arrays of the store, each source with a descriptor at every index of the
    destination, the call returns whatever the further sources are, also
    when one of them is missing from the store or too short to be read: the
    new array has, at each index, the verb of the destination, its path
    followed by the paths of the first four sources and of no other, and the
    handlers of the last of these four. *)
Theorem group_first_four_sources dest st :
  (∀ sources,
     group_apply dest sources st = group_apply dest (take 4 sources) st)
  ∧ (∀ s1 s2 s3 s4 more,
       group_apply dest (s1 :: s2 :: s3 :: s4 :: more) st
       = group dest s1 s2 s3 s4 st)
  ∧ (∀ d s1 s2 s3 s4 more,
       heap st !! dest = Some d →
       Forall (long_enough (heap st) (length (Arr.items d)))
         (provided s1 s2 s3 s4) →
       ∃ rs st',
         group_apply dest (Some s1 :: s2 :: s3 :: s4 :: more) st
         = Ok (length (heap st)) st'
         ∧ group_apply dest [Some s1; s2; s3; s4] st
           = Ok (length (heap st)) st'
         ∧ heap st' !! length (heap st) = Some (Arr.mk rs None)
         ∧ length rs = length (Arr.items d)
         ∧ ∀ i di,
             Arr.items d !! i = Some di →
             ∃ ri,
               rs !! i = Some ri
               ∧ Route.method ri = Route.method di
               ∧ Route.route ri
                 = foldl (λ acc s, acc +:+ Route.route s) (Route.route di)
                     (sources_at (heap st) (provided s1 s2 s3 s4) i)
               ∧ Some (Route.middlewares ri)
                 = Route.middlewares
                     <$> last (sources_at (heap st)
                                 (provided s1 s2 s3 s4) i)).
Proof.
  split_and!.
  - intros sources. unfold group_apply, formal.
    by rewrite !lookup_take_lt by lia.
  - done.
  - intros d s1 s2 s3 s4 more Hd Hps.
    set (ps := provided s1 s2 s3 s4) in *.
    set (g := λ i di, foldl (merge_route (options st)) di
                        (sources_at (heap st) ps i)).
    pose proof (group_ok st dest s1 s2 s3 s4 d Hd Hps) as Hrun.
    fold ps in Hrun. fold g in Hrun.
    exists (imap g (Arr.items d)),
      (set_heap (heap st ++ [Arr.mk (imap g (Arr.items d)) None]) st).
    split; [exact Hrun|]. split; [exact Hrun|].
    split; [by apply list_lookup_middle|].
    split; [by rewrite length_imap|].
    intros i di Hi. exists (g i di).
    split; [by rewrite list_lookup_imap, Hi|]. unfold g.
    split; [apply foldl_merge_method|].
    split; [apply foldl_merge_route|].
    apply foldl_merge_middlewares. intros Hnil.
    assert (Forall2 (λ p s, source_at (heap st) (Some p) i = Some s) ps
              (sources_at (heap st) ps i)) as Hss.
    { eapply sources_at_valid; [done|]. by eapply lookup_lt_Some. }
    rewrite Hnil in Hss. by apply Forall2_nil_inv_r in Hss.
Qed.


(** C2.  For every destination array and provided sources (the first, and
    up to three more), each with a descriptor at every index of the
    destination, [group] returns a brand-new array with as many descriptors
    as the destination, in which, at each index [i], the verb is that of
    [dest[i]], the path is the path of [dest[i]] followed by the paths of
    the sources at [i] in argument order, and the handlers are those of the
    last source at [i].  It mutates neither the destination, nor a source,
    nor [routes], nor [resources]. *)
Theorem group_merges st dest src1 src2 src3 src4 d :
  heap st !! dest = Some d →
  Forall (long_enough (heap st) (length (Arr.items d)))
    (provided src1 src2 src3 src4) →
  ∃ rs st',
    group dest (Some src1) src2 src3 src4 st = Ok (length (heap st)) st'
    ∧ heap st !! length (heap st) = None
    ∧ heap st' !! length (heap st) = Some (Arr.mk rs None)
    ∧ length rs = length (Arr.items d)
    ∧ (∀ i di,
         Arr.items d !! i = Some di →
         ∃ ri ss,
           rs !! i = Some ri
           ∧ Forall2 (λ p s, source_at (heap st) (Some p) i = Some s)
               (provided src1 src2 src3 src4) ss
           ∧ Route.method ri = Route.method di
           ∧ Route.route ri
             = foldl (λ acc s, acc +:+ Route.route s) (Route.route di) ss
           ∧ Some (Route.middlewares ri) = Route.middlewares <$> last ss)
    ∧ (∀ p a, heap st !! p = Some a → heap st' !! p = Some a)
    ∧ routes st' = routes st
    ∧ resources st' = resources st
    ∧ options st' = options st.
Proof.
  intros Hd Hps.
  set (ps := provided src1 src2 src3 src4) in *.
  set (g := λ i di, foldl (merge_route (options st)) di
                      (sources_at (heap st) ps i)).
  assert (map_index (group_route (Some src1) src2 src3 src4)
            (Arr.items d) 0 st = Ok (imap g (Arr.items d)) st) as Hmap.
  { apply (map_index_ok _ g st (Arr.items d) 0).
    intros i x Hx; simpl. apply group_route_ok.
    eapply sources_at_valid; [done|]. by eapply lookup_lt_Some. }
  exists (imap g (Arr.items d)),
    (set_heap (heap st ++ [Arr.mk (imap g (Arr.items d)) None]) st).
  split.
  { unfold group, bind, read_array. by rewrite Hd, Hmap. }
  split; [by apply lookup_ge_None_2|].
  split; [by apply list_lookup_middle|].
  split; [by rewrite length_imap|].
  split.
  { intros i di Hi.
    exists (g i di), (sources_at (heap st) ps i).
    split; [by rewrite list_lookup_imap, Hi|].
    assert (Forall2 (λ p s, source_at (heap st) (Some p) i = Some s) ps
              (sources_at (heap st) ps i)) as Hss.
    { eapply sources_at_valid; [done|]. by eapply lookup_lt_Some. }
    split; [done|]. unfold g.
    split; [apply foldl_merge_method|].
    split; [apply foldl_merge_route|].
    apply foldl_merge_middlewares.
    intros Hnil. rewrite Hnil in Hss.
    by apply Forall2_nil_inv_r in Hss. }
  split; [|done].
  intros p a Hp. simpl. by apply lookup_app_l_Some.
Qed.


(** ** Beyond the claims: how a call fails, and what every call keeps *)

Lemma table_name_not_empty route : table_name route ≠ EmptyString.
Proof.
  unfold table_name. destruct (String.eqb_spec route EmptyString); done.
Qed.

(** The two ways a call to [createResource] ends. *)
Lemma createResource_cases name ctrl opts st :
  let o := utils.mergeOptions (options st) (shift_arguments name ctrl opts).2 in
  (∃ tbl,
     createResource name ctrl opts st
     = Ok (length (heap st))
         (mkState (heap st ++ [tbl]) o (routes st)
            (resources st ++ [length (heap st)]))
     ∧ length (Arr.items tbl) = 7
     ∧ named tbl)
  ∨ (∃ e arr,
       createResource name ctrl opts st
       = Throw e (mkState (heap st ++ [arr]) o (routes st) (resources st))).
Proof.
  pose proof (createResource_ok name ctrl opts st) as Hok.
  pose proof (createResource_throws name ctrl opts st) as Hthrow.
  destruct (shift_arguments name ctrl opts) as [[name' ctrl'] opts']; simpl.
  destruct (verbs_ok (utils.mergeOptions (options st) opts')) eqn:Hverbs.
  - left. eexists. split; [by apply Hok|]. split; [done|].
    eexists. split; [done|]. apply table_name_not_empty.
  - right. by apply Hthrow.
Qed.

Lemma Array_concat_cases args : ∀ acc st,
  (∃ more, Array_concat acc args st = Ok (acc ++ more) st)
  ∨ (∃ e, Array_concat acc args st = Throw e st).
Proof.
  induction args as [|[p|x] args IH]; intros acc st; simpl.
  - left. exists []. by rewrite app_nil_r.
  - unfold bind, read_array. destruct (heap st !! p) as [a|]; [|by right; eexists].
    destruct (IH (acc ++ Arr.items a) st) as [[more ->]|[e ->]].
    + left. exists (Arr.items a ++ more). by rewrite app_assoc.
    + right. by eexists.
  - destruct (IH (acc ++ [x]) st) as [[more ->]|[e ->]].
    + left. exists (x :: more). by rewrite <- app_assoc.
    + right. by eexists.
Qed.

(** [addRoutes] appends to [routes], or fails and changes nothing. *)
Lemma addRoutes_cases args st :
  (∃ more, addRoutes args st = Ok tt (set_routes (routes st ++ more) st))
  ∨ (∃ e, addRoutes args st = Throw e st).
Proof.
  unfold addRoutes, bind, get.
  destruct (Array_concat_cases args (routes st) st) as [[more ->]|[e ->]].
  - left. by exists more.
  - right. by exists e.
Qed.

Lemma keeps_createRouteObject {X} (f : State → X) d src i :
  keeps f (createRouteObject d src i).
Proof.
  intros st. unfold createRouteObject. by destruct (source_at _ _ _).
Qed.

Lemma keeps_group_route {X} (f : State → X) src1 src2 src3 src4 d i :
  keeps f (group_route src1 src2 src3 src4 d i).
Proof.
  unfold group_route.
  apply keeps_bind; [apply keeps_createRouteObject|intros ?].
  apply keeps_bind;
    [destruct src2; [apply keeps_createRouteObject|apply keeps_ret]|intros ?].
  apply keeps_bind;
    [destruct src3; [apply keeps_createRouteObject|apply keeps_ret]|intros ?].
  apply keeps_bind;
    [destruct src4; [apply keeps_createRouteObject|apply keeps_ret]|intros ?].
  apply keeps_ret.
Qed.

Lemma keeps_map_index {A B X} (f : State → X) (g : A → nat → M B) l :
  (∀ x i, keeps f (g x i)) → ∀ k, keeps f (map_index g l k).
Proof.
  intros Hg. induction l as [|x l IH]; intros k; simpl.
  - apply keeps_ret.
  - apply keeps_bind; [apply Hg|intros ?].
    apply keeps_bind; [apply IH|intros ?]. apply keeps_ret.
Qed.

(** [group] allocates the array it returns, or fails and changes nothing. *)
Lemma group_cases dest src1 src2 src3 src4 st :
  (∃ rs, group dest src1 src2 src3 src4 st
         = Ok (length (heap st)) (set_heap (heap st ++ [Arr.mk rs None]) st))
  ∨ (∃ e, group dest src1 src2 src3 src4 st = Throw e st).
Proof.
  unfold group, bind, read_array.
  destruct (heap st !! dest) as [d|]; [|by right; eexists].
  pose proof (keeps_map_index (λ s, s) (group_route src1 src2 src3 src4)
                (Arr.items d) (keeps_group_route _ src1 src2 src3 src4) 0 st)
    as Hpure.
  destruct (map_index _ _ _ st) as [rs st'|e st']; simpl in Hpure; subst st'.
  - left. by exists rs.
  - right. by exists e.
Qed.

Lemma extends_refl st : extends st st.
Proof.
  split_and!; [exists []|exists []|left]; by rewrite ?app_nil_r.
Qed.

(** Every call only extends the state. *)
Lemma run_extends c st : extends st (run c st).
Proof.
  destruct c as [name ctrl opts|name ctrl opts|args|args|p| | |name
                 |dest src1 src2 src3 src4]; unfold run;
    try apply extends_refl.
  - destruct (createResource_cases name ctrl opts st)
      as [(tbl & Hrun & Hlen & Hname)|(e & arr & Hrun)]; rewrite Hrun; simpl.
    + split_and!; [by eexists|exists []; by rewrite app_nil_r|].
      right. by exists tbl.
    + split_and!; [by eexists|exists []; by rewrite app_nil_r|by left].
  - unfold resource_, bind.
    destruct (createResource_cases name ctrl opts st)
      as [(tbl & Hrun & Hlen & Hname)|(e & arr & Hrun)]; rewrite Hrun.
    + unfold addResource.
      match goal with
      | |- context [addRoutes ?a ?s] =>
          destruct (addRoutes_cases a s) as [[more Hadd]|[e Hadd]];
          rewrite Hadd; simpl
      end.
      * split_and!; [by eexists|by eexists|]. right. by exists tbl.
      * split_and!; [by eexists|exists []; by rewrite app_nil_r|].
        right. by exists tbl.
    + simpl.
      split_and!; [by eexists|exists []; by rewrite app_nil_r|by left].
  - destruct (addRoutes_cases args st) as [[more Hadd]|[e Hadd]];
      rewrite Hadd; simpl; [|apply extends_refl].
    split_and!; [exists []; by rewrite app_nil_r|by eexists|by left].
  - unfold addResources.
    destruct (addRoutes_cases args st) as [[more Hadd]|[e Hadd]];
      rewrite Hadd; simpl; [|apply extends_refl].
    split_and!; [exists []; by rewrite app_nil_r|by eexists|by left].
  - unfold addResource.
    destruct (addRoutes_cases [ArgArray p] st) as [[more Hadd]|[e Hadd]];
      rewrite Hadd; simpl; [|apply extends_refl].
    split_and!; [exists []; by rewrite app_nil_r|by eexists|by left].
  - destruct (group_cases dest src1 src2 src3 src4 st)
      as [[rs Hrun]|[e Hrun]]; rewrite Hrun; simpl; [|apply extends_refl].
    split_and!; [by eexists|exists []; by rewrite app_nil_r|by left].
Qed.

Lemma filed_table_grows h more p :
  filed_table h p → filed_table (h ++ more) p.
Proof.
  intros (a & Ha & Hlen & Hname). exists a.
  split; [by apply lookup_app_l_Some|done].
Qed.

Lemma filed_table_valid h p : filed_table h p → p < length h.
Proof. intros (a & Ha & _). by eapply lookup_lt_Some. Qed.

Lemma extends_registry_ok st st' :
  extends st st' → registry_ok st → registry_ok st'.
Proof.
  intros ([more Hheap] & _ & Hres) [Hfiled Hnodup].
  destruct Hres as [Hres|(tbl & Hheap' & Hres & Hlen & Hname)].
  - unfold registry_ok. rewrite Hres, Hheap. split; [|done].
    eapply Forall_impl; [exact Hfiled|]. intros p. apply filed_table_grows.
  - unfold registry_ok. rewrite Hres, Hheap'. split.
    + apply Forall_app. split.
      * eapply Forall_impl; [exact Hfiled|]. intros p. apply filed_table_grows.
      * apply Forall_singleton. exists tbl.
        split; [by apply list_lookup_middle|done].
    + apply NoDup_app. split_and!; [done| |apply NoDup_singleton].
      intros p Hp [->|[]%elem_of_nil]%elem_of_cons.
      rewrite Forall_forall in Hfiled.
      apply Hfiled, filed_table_valid in Hp. lia.
Qed.

Lemma name_is_grows h more p v :
  p < length h → name_is (h ++ more) p v = name_is h p v.
Proof.
  intros Hp. unfold name_is, name_of. by rewrite lookup_app_l.
Qed.

Lemma getResource_loop_grows h more v rs :
  Forall (λ p, p < length h) rs →
  getResource_loop (h ++ more) v rs = getResource_loop h v rs.
Proof.
  induction 1 as [|p rs Hp _ IH]; simpl; [done|].
  by rewrite name_is_grows, IH.
Qed.

Lemma getResource_loop_found h v rs more p :
  getResource_loop h v rs = Some p →
  getResource_loop h v (rs ++ more) = Some p.
Proof.
  induction rs as [|q rs IH]; simpl; [done|].
  destruct (name_is h q v); [done|apply IH].
Qed.

Lemma getResource_loop_named h v rs :
  Forall (filed_table h) rs →
  typeof v ≠ "string" ∨ v = JStr EmptyString →
  getResource_loop h v rs = None.
Proof.
  intros Hrs Hv. induction Hrs as [|p rs (a & Ha & _ & n & Hn & Hne) _ IH];
    simpl; [done|].
  assert (name_is h p v = false) as ->; [|done].
  unfold name_is, name_of. rewrite Ha; simpl. rewrite Hn.
  destruct Hv as [Hv| ->].
  - by destruct v.
  - by destruct (String.eqb_spec n EmptyString).
Qed.

Lemma registry_ok_valid st :
  registry_ok st → Forall (λ p, p < length (heap st)) (resources st).
Proof.
  intros [Hfiled _]. eapply Forall_impl; [exact Hfiled|].
  intros p. apply filed_table_valid.
Qed.

Lemma spread_app h args1 args2 :
  spread h (args1 ++ args2) = spread h args1 ++ spread h args2.
Proof. unfold spread. apply bind_app. Qed.

Lemma set_routes_set_routes rs1 rs2 st :
  set_routes rs2 (set_routes rs1 st) = set_routes rs2 st.
Proof. done. Qed.

(** X1.  [createResource] files its table as its last step: a call that
    returns has allocated exactly one new array, a named table of seven
    routes, and appended its address to [resources]; a call that fails while
    the routes are built leaves [routes] and [resources] as they were and no
    existing array changed. *)
Theorem createResource_files_last name ctrl opts st :
  match createResource name ctrl opts st with
  | Ok a st' =>
      a = length (heap st)
      ∧ heap st !! a = None
      ∧ resources st' = resources st ++ [a]
      ∧ routes st' = routes st
      ∧ ∃ tbl,
          heap st' = heap st ++ [tbl]
          ∧ length (Arr.items tbl) = 7
          ∧ named tbl
  | Throw _ st' =>
      resources st' = resources st
      ∧ routes st' = routes st
      ∧ ∀ p a, heap st !! p = Some a → heap st' !! p = Some a
  end.
Proof.
  destruct (createResource_cases name ctrl opts st)
    as [(tbl & -> & Hlen & Hname)|(e & arr & ->)]; simpl.
  - split_and!; [done|by apply lookup_ge_None_2|done|done|by exists tbl].
  - split_and!; [done|done|]. intros p a. apply lookup_app_l_Some.
Qed.

(** X2.  [resource] adds to [routes] exactly the seven routes of the table it has
    just filed, the same descriptors the table holds; when the table cannot
    be built it adds nothing to either registry. *)
Theorem resource_registers_built_table name ctrl opts st :
  match resource_ name ctrl opts st with
  | Ok _ st' =>
      ∃ tbl,
        createResource name ctrl opts st
        = Ok (length (heap st)) (set_routes (routes st) st')
        ∧ heap st' = heap st ++ [tbl]
        ∧ length (Arr.items tbl) = 7
        ∧ resources st' = resources st ++ [length (heap st)]
        ∧ routes st' = routes st ++ Arr.items tbl
  | Throw _ st' =>
      resources st' = resources st ∧ routes st' = routes st
  end.
Proof.
  unfold resource_, bind.
  destruct (createResource_cases name ctrl opts st)
    as [(tbl & Hrun & Hlen & Hname)|(e & arr & Hrun)]; rewrite Hrun.
  - unfold addResource. rewrite addRoutes_ok.
    + rewrite (spread_single _ _ tbl) by by apply list_lookup_middle.
      simpl. by exists tbl.
    + apply Forall_singleton; simpl. by rewrite list_lookup_middle.
  - done.
Qed.

(** X3.  On every router reached through the constructor and method calls, each
    reference in [resources] is to an existing table of seven routes with a
    non-empty name, and no table is filed twice. *)
Theorem reachable_registry_ok st : reachable st → registry_ok st.
Proof.
  induction 1 as [options h|c st _ IH].
  - split; [constructor|apply NoDup_nil_2].
  - eapply extends_registry_ok; [apply run_extends|done].
Qed.

(** X4.  No call removes, reorders or overwrites anything: after any call,
    returning or not, [routes] and [resources] are their previous contents
    with something appended, and every array of the store is as it was. *)
Theorem calls_only_append c st :
  routes st `prefix_of` routes (run c st)
  ∧ resources st `prefix_of` resources (run c st)
  ∧ ∀ p a, heap st !! p = Some a → heap (run c st) !! p = Some a.
Proof.
  destruct (run_extends c st) as ([more Hheap] & [rs Hroutes] & Hres).
  split_and!.
  - by exists rs.
  - destruct Hres as [->|(tbl & _ & -> & _)]; [done|by eexists].
  - intros p a Hp. rewrite Hheap. by apply lookup_app_l_Some.
Qed.

(** X5.  Once [getResource] finds a table for a name, every later call leaves
    that answer as it is: the first table filed under a name keeps it, also
    when another resource of the same name is created. *)
Theorem getResource_stable st v p c :
  registry_ok st →
  getResource v st = Ok (Some p) st →
  getResource v (run c st) = Ok (Some p) (run c st).
Proof.
  intros Hok Hget. unfold getResource, bind, get, ret in *.
  injection Hget as Hget. f_equal. f_equal.
  pose proof (registry_ok_valid st Hok) as Hvalid.
  destruct (run_extends c st) as ([more Hheap] & _ & Hres).
  rewrite Hheap.
  destruct Hres as [->|(tbl & _ & -> & _)].
  - by rewrite getResource_loop_grows.
  - rewrite <- (getResource_loop_grows _ more) in Hget by done.
    by apply getResource_loop_found.
Qed.

(** X6.  On a router whose tables are all named, as [createResource] names them,
    [getResource] of a value that is not a string, or of the empty string,
    is [null]: the comparison is strict and no table has the empty name. *)
Theorem getResource_not_a_name st v :
  registry_ok st →
  typeof v ≠ "string" ∨ v = JStr EmptyString →
  getResource v st = Ok None st.
Proof.
  intros [Hfiled _] Hv. unfold getResource, bind, get, ret.
  by rewrite getResource_loop_named.
Qed.

(** X7.  Registering in two calls is registering in one: [addRoutes(...a)] followed
    by [addRoutes(...b)] leaves the state [addRoutes(...a, ...b)] leaves; and
    [addRoutes()] changes nothing. *)
Theorem addRoutes_composes st (args1 args2 : list Arg) :
  Forall (valid_arg (heap st)) args1 →
  Forall (valid_arg (heap st)) args2 →
  (let! _ := addRoutes args1 in addRoutes args2) st
  = addRoutes (args1 ++ args2) st
  ∧ addRoutes [] st = Ok tt st.
Proof.
  intros H1 H2. split.
  - unfold bind at 1. rewrite (addRoutes_ok args1) by done.
    rewrite addRoutes_ok by done.
    rewrite addRoutes_ok by by apply Forall_app.
    simpl. by rewrite spread_app, app_assoc.
  - rewrite addRoutes_ok by constructor.
    unfold spread; simpl. rewrite app_nil_r. by destruct st.
Qed.

(** X8.  Grouping an empty destination needs no source at all: [group] returns a
    new empty array, whatever the sources are, missing ones included. *)
Theorem group_empty_destination st dest src1 src2 src3 src4 d :
  heap st !! dest = Some d →
  Arr.items d = [] →
  group dest src1 src2 src3 src4 st
  = Ok (length (heap st)) (set_heap (heap st ++ [Arr.mk [] None]) st).
Proof.
  intros Hd Hempty. unfold group, bind, read_array.
  by rewrite Hd, Hempty.
Qed.

(** X9.  [group] registers nothing: whatever its arguments, and whether it returns
    or throws, [routes], [resources] and the options are as before and every
    existing array is unchanged; so [getResource] answers as before, for
    every name. *)
Theorem group_registers_nothing dest src1 src2 src3 src4 st :
  let st' := final (group dest src1 src2 src3 src4 st) in
  routes st' = routes st
  ∧ resources st' = resources st
  ∧ options st' = options st
  ∧ (∀ p a, heap st !! p = Some a → heap st' !! p = Some a)
  ∧ (registry_ok st →
     ∀ v res, getResource v st = Ok res st → getResource v st' = Ok res st').
Proof.
  intros st'. unfold st'.
  destruct (group_cases dest src1 src2 src3 src4 st) as [[rs ->]|[e ->]];
    simpl.
  - split_and!; [done|done|done| |].
    + intros p a. apply lookup_app_l_Some.
    + intros Hok v res Hget. unfold getResource, bind, get, ret in *; simpl.
      injection Hget as <-.
      by rewrite getResource_loop_grows by by apply registry_ok_valid.
  - split_and!; done.
Qed.

(** ** Grouping step by step *)

Lemma imap_imap {A B C} (f : nat → A → B) (g : nat → B → C) (l : list A) :
  imap g (imap f l) = imap (λ i x, g i (f i x)) l.
Proof.
  revert f g. induction l as [|x l IH]; intros f g; [done|].
  rewrite !imap_cons. f_equal. apply IH.
Qed.

Lemma imap_same {A} (l : list A) : imap (λ _ x, x) l = l.
Proof.
  induction l as [|x l IH]; [done|].
  rewrite imap_cons. f_equal. exact IH.
Qed.

Lemma long_enough_grows h more n p :
  long_enough h n p → long_enough (h ++ more) n p.
Proof.
  intros (a & Ha & Hn). exists a. split; [by apply lookup_app_l_Some|done].
Qed.

Lemma sources_at_grows h more n ps i :
  Forall (long_enough h n) ps →
  sources_at (h ++ more) ps i = sources_at h ps i.
Proof.
  intros Hps. unfold sources_at.
  induction Hps as [|p ps (a & Ha & _) _ IH]; [done|].
  cbn [omap list_omap]. rewrite IH. unfold source_at; simpl.
  by rewrite (lookup_app_l_Some _ _ _ _ Ha), Ha.
Qed.

(** Grouping the sources one at a time builds the descriptors that grouping
    them in one call builds. *)
Lemma group_chain_ok ps : ∀ st dest d,
  heap st !! dest = Some d →
  Forall (long_enough (heap st) (length (Arr.items d))) ps →
  ∃ a st',
    group_chain dest ps st = Ok a st'
    ∧ (∃ more, heap st' = heap st ++ more)
    ∧ options st' = options st
    ∧ routes st' = routes st
    ∧ resources st' = resources st
    ∧ Arr.items <$> heap st' !! a
      = Some (imap (λ i di,
                      foldl (merge_route (options st)) di
                        (sources_at (heap st) ps i))
                (Arr.items d)).
Proof.
  induction ps as [|p ps IH]; intros st dest d Hd Hps.
  - exists dest, st. split; [done|].
    split; [exists []; by rewrite app_nil_r|].
    do 3 (split; [done|]).
    rewrite Hd; simpl. f_equal.
    unfold sources_at; simpl. by rewrite imap_same.
  - apply Forall_cons in Hps as [Hp Hps].
    assert (Forall (long_enough (heap st) (length (Arr.items d)))
              (provided p None None None)) as Hone by by constructor.
    pose proof (group_ok st dest p None None None d Hd Hone) as Hrun.
    set (d1 := Arr.mk _ None) in Hrun.
    set (st1 := set_heap _ st) in Hrun.
    assert (heap st1 !! length (heap st) = Some d1) as Hd1
      by by apply list_lookup_middle.
    assert (length (Arr.items d1) = length (Arr.items d)) as Hlen
      by apply length_imap.
    destruct (IH st1 (length (heap st)) d1 Hd1)
      as (a & st' & Hchain & [more Hheap] & Hopts & Hroutes & Hres & Hitems).
    { rewrite Hlen. eapply Forall_impl; [exact Hps|].
      intros q. apply long_enough_grows. }
    exists a, st'. split.
    { simpl. unfold bind. by rewrite Hrun. }
    split.
    { exists (d1 :: more). rewrite Hheap; simpl. by rewrite <- app_assoc. }
    do 3 (split; [done|]).
    rewrite Hitems. f_equal. unfold d1; simpl.
    rewrite imap_imap. apply imap_ext. intros i di _; simpl.
    rewrite (sources_at_grows _ _ _ _ _ Hps).
    by destruct (_ ≫= _).
Qed.

(** X10.  Grouping with several sources is grouping with one source at a time:
    [group(dest, s1, s2, s3, s4)] builds the same descriptors as
    [group(group(group(group(dest, s1), s2), s3), s4)], the sources that are
    not given being skipped. *)
Theorem group_one_source_at_a_time st dest src1 src2 src3 src4 d :
  heap st !! dest = Some d →
  Forall (long_enough (heap st) (length (Arr.items d)))
    (provided src1 src2 src3 src4) →
  ∃ rs a st1 b st2,
    group dest (Some src1) src2 src3 src4 st = Ok a st1
    ∧ heap st1 !! a = Some (Arr.mk rs None)
    ∧ group_chain dest (provided src1 src2 src3 src4) st = Ok b st2
    ∧ Arr.items <$> heap st2 !! b = Some rs.
Proof.
  intros Hd Hps.
  destruct (group_chain_ok _ st dest d Hd Hps)
    as (b & st2 & Hchain & _ & _ & _ & _ & Hitems).
  eexists _, _, _, b, st2.
  split; [by apply group_ok|].
  split; [by apply list_lookup_middle|].
  split; [exact Hchain|exact Hitems].
Qed.

Lemma sources_at_single h p a i x :
  h !! p = Some a → Arr.items a !! i = Some x → sources_at h [p] i = [x].
Proof.
  intros Hp Hx. unfold sources_at, source_at; simpl.
  rewrite Hp; simpl. by rewrite Hx.
Qed.

Lemma append_assoc (s t u : string) : s +:+ (t +:+ u) = (s +:+ t) +:+ u.
Proof.
  induction s as [|c s IH]; [done|]. by rewrite !append_cons, IH.
Qed.

Lemma merge_route_assoc o d b c :
  merge_route o d (merge_route o b c) = merge_route o (merge_route o d b) c.
Proof. unfold merge_route; simpl. by rewrite append_assoc. Qed.

(** X11.  Grouping is associative: for tables [a], [b], [c], each at least
    as long as the one before, [group(group(a, b), c)] and
    [group(a, group(b, c))] both return, with the same descriptors (the merge
    of two descriptors being the modelled [utils.createRouteObject]). *)
Theorem group_associative st a b c A B C :
  heap st !! a = Some A →
  heap st !! b = Some B →
  heap st !! c = Some C →
  length (Arr.items A) ≤ length (Arr.items B) →
  length (Arr.items B) ≤ length (Arr.items C) →
  ∃ rs,
    Arr.items <$>
      table_of ((let! ab := group a (Some b) None None None in
                 group ab (Some c) None None None) st) = Some rs
    ∧ Arr.items <$>
        table_of ((let! bc := group b (Some c) None None None in
                   group a (Some bc) None None None) st) = Some rs.
Proof.
  intros Ha Hb Hc HAB HBC.
  set (h := heap st). set (o := options st).
  (* the left nesting *)
  assert (Forall (long_enough h (length (Arr.items A)))
            (provided b None None None)) as Hb_long.
  { constructor; [|constructor]. by exists B. }
  pose proof (group_ok st a b None None None A Ha Hb_long) as Hab.
  set (AB := Arr.mk _ None) in Hab. set (st1 := set_heap _ st) in Hab.
  assert (heap st1 !! length h = Some AB) as HAB1
    by by apply list_lookup_middle.
  assert (Forall (long_enough (heap st1) (length (Arr.items AB)))
            (provided c None None None)) as Hc_long.
  { constructor; [|constructor]. exists C.
    split; [by apply lookup_app_l_Some|].
    unfold AB; simpl. rewrite length_imap. lia. }
  pose proof (group_ok st1 (length h) c None None None AB HAB1 Hc_long)
    as Hleft.
  (* the right nesting *)
  assert (Forall (long_enough h (length (Arr.items B)))
            (provided c None None None)) as Hc_long'.
  { constructor; [|constructor]. by exists C. }
  pose proof (group_ok st b c None None None B Hb Hc_long') as Hbc.
  set (BC := Arr.mk _ None) in Hbc. set (st1' := set_heap _ st) in Hbc.
  assert (heap st1' !! length h = Some BC) as HBC1
    by by apply list_lookup_middle.
  assert (heap st1' !! a = Some A) as Ha' by by apply lookup_app_l_Some.
  assert (Forall (long_enough (heap st1') (length (Arr.items A)))
            (provided (length h) None None None)) as Hbc_long.
  { constructor; [|constructor]. exists BC. split; [done|].
    unfold BC; simpl. rewrite length_imap. lia. }
  pose proof (group_ok st1' a (length h) None None None A Ha' Hbc_long)
    as Hright.
  eexists. split.
  - unfold bind. rewrite Hab. fold h. rewrite Hleft.
    cbn [table_of heap set_heap].
    rewrite list_lookup_middle by done. reflexivity.
  - unfold bind. rewrite Hbc. fold h. rewrite Hright.
    cbn [table_of heap set_heap].
    rewrite list_lookup_middle by done.
    cbn [fmap option_fmap option_map Arr.items]. f_equal.
    unfold AB. cbn [Arr.items]. rewrite imap_imap.
    apply imap_ext. intros i di Hi. cbn beta.
    destruct (lookup_lt_is_Some_2 (Arr.items B) i) as [bi Hbi].
    { apply lookup_lt_Some in Hi. lia. }
    destruct (lookup_lt_is_Some_2 (Arr.items C) i) as [ci Hci].
    { apply lookup_lt_Some in Hbi. lia. }
    fold h o.
    assert (Arr.items BC !! i = Some (merge_route o bi ci)) as Hbci.
    { unfold BC. cbn [Arr.items]. rewrite list_lookup_imap, Hbi.
      cbn [fmap option_fmap option_map].
      by rewrite (sources_at_single _ c C i ci). }
    change (provided (length h) None None None)
      with (@cons ref (length h) (@nil ref)).
    change (provided b None None None) with [b].
    change (provided c None None None) with [c].
    change (options st1') with o. change (options st1) with o.
    rewrite (sources_at_single _ _ BC i _ HBC1 Hbci).
    rewrite (sources_at_single h b B i bi) by done.
    rewrite (sources_at_single _ c C i ci); [|by apply lookup_app_l_Some|done].
    cbn [foldl]. apply merge_route_assoc.
Qed.

(** ** Call shapes *)

Lemma createResource_shifted name ctrl opts name' ctrl' opts' :
  shift_arguments name ctrl opts = shift_arguments name' ctrl' opts' →
  createResource name ctrl opts = createResource name' ctrl' opts'.
Proof. intros Hshift. unfold createResource. by rewrite Hshift. Qed.

(** X12.  Calls that [createResource] does not tell apart.  With an object as first
    argument the third argument is ignored, the call being the one with the
    root name, that object as controller and the second argument as options;
    any other non-string name is the root name; and a name with a leading
    [/] is the name without it. *)
Theorem createResource_call_shapes name ctrl opts st :
  (typeof name = "object" →
   ∀ ignored,
     createResource name ctrl ignored st
     = createResource (JStr "/") name ctrl st)
  ∧ (typeof name ≠ "object" → typeof name ≠ "string" →
     createResource name ctrl opts st
     = createResource (JStr "/") ctrl opts st)
  ∧ (∀ s, s ≠ EmptyString → starts_with_slash s = false →
       createResource (JStr ("/" +:+ s)) ctrl opts st
       = createResource (JStr s) ctrl opts st).
Proof.
  split_and!.
  - intros Hobj ignored. rewrite (createResource_shifted _ _ _ (JStr "/") name ctrl);
      [done|]. unfold shift_arguments. by destruct name.
  - intros Hobj Hstr. rewrite (createResource_shifted _ _ _ (JStr "/") ctrl opts);
      [done|]. unfold shift_arguments. by destruct name.
  - intros s Hne Hslash.
    assert (route_segment ("/" +:+ s) = route_segment s) as Hroute.
    { unfold route_segment, strip_slash. rewrite Hslash.
      destruct s as [|ch s]; [done|].
      rewrite !append_cons, !append_nil_l. simpl in Hslash |- *.
      destruct (Ascii.eqb ch _) eqn:Heq; [|done].
      change (Ascii.eqb ch (Ascii.ascii_of_nat 47) = true) in Heq.
      congruence. }
    assert (param_name ("/" +:+ s) = param_name s) as Hparam.
    { unfold param_name, strip_slash. rewrite Hslash.
      destruct s as [|ch s]; [done|].
      rewrite !append_cons, !append_nil_l. simpl in Hslash |- *.
      destruct (Ascii.eqb ch _) eqn:Heq; [|done].
      change (Ascii.eqb ch (Ascii.ascii_of_nat 47) = true) in Heq.
      congruence. }
    unfold createResource.
    change (shift_arguments (JStr ("/" +:+ s)) ctrl opts)
      with ("/" +:+ s, ctrl, opts).
    change (shift_arguments (JStr s) ctrl opts) with (s, ctrl, opts).
    cbv beta iota zeta. by rewrite Hroute, Hparam.
Qed.

End KoaRestRouter.

Set Warnings "-notation-for-abbreviation".

(** ** The claims at concrete inputs

    A router built with no options, the sample collaborators, and resources
    named [cats] and [dogs]. *)

Local Notation createResource' :=
  (createResource Sample.pluralize Sample.singularize Sample.ToString
     Sample.createPrefix).
Local Notation resource' :=
  (resource_ Sample.pluralize Sample.singularize Sample.ToString
     Sample.createPrefix).

Lemma createResource_seven_routes_witness :
  let st := KoaRestRouter JUndefined [] in
  shift_arguments (JStr "cats") JUndefined JUndefined
  = ("cats", JUndefined, JUndefined)
  ∧ verbs_ok (options st) = true
  ∧ ∃ tbl st',
      createResource' (JStr "cats") JUndefined JUndefined st = Ok 0 st'
      ∧ heap st' !! 0 = Some tbl
      ∧ Route.method <$> Arr.items tbl
        = ["GET"; "GET"; "POST"; "GET"; "GET"; "PUT"; "DELETE"]
      ∧ Route.route <$> Arr.items tbl
        = ["/cats"; "/cats/new"; "/cats"; "/cats/:cat"; "/cats/:cat/edit";
           "/cats/:cat"; "/cats/:cat"].
Proof.
  intros st. split; [reflexivity|]. split; [reflexivity|].
  destruct (createResource_seven_routes Sample.pluralize Sample.singularize
              Sample.ToString Sample.createPrefix st (JStr "cats") "cats"
              JUndefined JUndefined)
    as (tbl & st' & Hrun & Htbl & _ & _ & _ & Hverbs & Hpaths & _);
    [reflexivity|reflexivity|].
  exists tbl, st'. split; [exact Hrun|]. split; [exact Htbl|].
  split; [by apply Hverbs|]. exact Hpaths.
Defined.

Lemma createResource_names_witness :
  let ctrl := JObj {[ "index" := JFun (UserFn 1) ]} in
  typeof ctrl = "object"
  ∧ shift_arguments ctrl (JObj ∅) JUndefined = ("/", ctrl, JObj ∅)
  ∧ shift_arguments (JNum 7) ctrl JUndefined = ("/", ctrl, JUndefined)
  ∧ route_segment Sample.pluralize "/" = EmptyString
  ∧ param_name Sample.singularize "/" = ":id"
  ∧ route_segment Sample.pluralize "cats" = "cats"
  ∧ param_name Sample.singularize "cats" = ":cat"
  ∧ route_segment Sample.pluralize "/cats" = "cats"
  ∧ param_name Sample.singularize "/cats" = ":cat".
Proof.
  intros ctrl.
  destruct (createResource_names Sample.pluralize Sample.singularize
              Sample.ToString Sample.createPrefix ctrl (JObj ∅) JUndefined)
    as (Hobj & _ & _ & Hroot & Hid & Hnames & _).
  destruct (createResource_names Sample.pluralize Sample.singularize
              Sample.ToString Sample.createPrefix (JNum 7) ctrl JUndefined)
    as (_ & Hnum & _).
  split; [reflexivity|].
  split; [by apply Hobj|].
  split; [by apply Hnum|].
  split; [exact Hroot|]. split; [exact Hid|].
  destruct (Hnames "cats") as [H1 H2]; [done|].
  destruct (Hnames "/cats") as [H3 H4]; [done|].
  split; [exact H1|]. split; [exact H2|]. split; [exact H3|exact H4].
Defined.

Lemma createResource_registries_witness :
  let st := KoaRestRouter JUndefined [] in
  let bad := JObj {[ "methods" := JObj {[ "get" := JNum 5 ]} ]} in
  let ctrl := JObj {[ "index" := JFun (UserFn 1) ]} in
  shift_arguments (JStr "cats") JUndefined JUndefined
  = ("cats", JUndefined, JUndefined)
  ∧ shift_arguments JUndefined JUndefined JUndefined
    = ("/", JUndefined, JUndefined)
  ∧ shift_arguments (JStr "cats") JUndefined bad = ("cats", JUndefined, bad)
  ∧ shift_arguments ctrl JUndefined JUndefined = ("/", ctrl, JUndefined)
  ∧ verbs_ok (utils.mergeOptions (options st) JUndefined) = true
  ∧ verbs_ok (utils.mergeOptions (options st) bad) = false
  ∧ route_segment Sample.pluralize "cats" ≠ EmptyString
  ∧ route_segment Sample.pluralize "/" = EmptyString
  ∧ routes (final (createResource' (JStr "cats") JUndefined JUndefined st)) = []
  ∧ (∃ tbl st1 st2,
       createResource' (JStr "cats") JUndefined JUndefined st = Ok 0 st1
       ∧ heap st1 !! 0 = Some tbl
       ∧ length (Arr.items tbl) = 7
       ∧ Arr.name tbl = Some "cats"
       ∧ resources st1 = [0]
       ∧ routes st1 = []
       ∧ resource' (JStr "cats") JUndefined JUndefined st = Ok tt st2
       ∧ length (routes st2) = 7
       ∧ resources st2 = [0])
  ∧ (∃ tbl st1 st2,
       createResource' JUndefined JUndefined JUndefined st = Ok 0 st1
       ∧ heap st1 !! 0 = Some tbl
       ∧ length (Arr.items tbl) = 7
       ∧ Arr.name tbl = Some "/"
       ∧ resources st1 = [0]
       ∧ resource' JUndefined JUndefined JUndefined st = Ok tt st2
       ∧ length (routes st2) = 7
       ∧ resources st2 = [0])
  ∧ (∃ tbl st1,
       createResource' ctrl JUndefined JUndefined st = Ok 0 st1
       ∧ heap st1 !! 0 = Some tbl
       ∧ Arr.name tbl = Some "/")
  ∧ (∃ e st1,
       createResource' (JStr "cats") JUndefined bad st = Throw e st1
       ∧ resource' (JStr "cats") JUndefined bad st = Throw e st1
       ∧ routes st1 = []
       ∧ resources st1 = []).
Proof.
  intros st bad ctrl.
  assert (route_segment Sample.pluralize "cats" ≠ EmptyString) as Hcats.
  { intros Heq. vm_compute in Heq. discriminate Heq. }
  split; [reflexivity|]. split; [reflexivity|]. split; [reflexivity|].
  split; [reflexivity|]. split; [reflexivity|]. split; [reflexivity|].
  split; [exact Hcats|]. split; [reflexivity|].
  destruct (createResource_registries Sample.pluralize Sample.singularize
              Sample.ToString Sample.createPrefix st (JStr "cats")
              JUndefined JUndefined) as [Hroutes Hcall].
  split; [exact Hroutes|].
  split.
  { destruct (Hcall "cats" JUndefined JUndefined eq_refl) as [Hok _].
    destruct (Hok eq_refl)
      as (tbl & st1 & st2 & H1 & H2 & _ & H3 & _ & H4 & _ & H5 & H6 & H7 & _
          & H8 & H9 & _).
    exists tbl, st1, st2.
    split; [exact H1|]. split; [exact H2|]. split; [exact H3|].
    split; [exact (H4 Hcats)|]. split; [exact H5|]. split; [exact H6|].
    split; [exact H7|]. split; [exact H8|exact H9]. }
  split.
  { destruct (createResource_registries Sample.pluralize Sample.singularize
                Sample.ToString Sample.createPrefix st JUndefined
                JUndefined JUndefined) as [_ Hroot].
    destruct (Hroot "/" JUndefined JUndefined eq_refl) as [Hok _].
    destruct (Hok eq_refl)
      as (tbl & st1 & st2 & H1 & H2 & _ & H3 & H4 & _ & _ & H5 & _ & H7 & _
          & H8 & H9 & _).
    exists tbl, st1, st2.
    split; [exact H1|]. split; [exact H2|]. split; [exact H3|].
    split; [exact (H4 eq_refl)|]. split; [exact H5|].
    split; [exact H7|]. split; [exact H8|exact H9]. }
  split.
  { destruct (createResource_registries Sample.pluralize Sample.singularize
                Sample.ToString Sample.createPrefix st ctrl
                JUndefined JUndefined) as [_ Hctrl].
    destruct (Hctrl "/" ctrl JUndefined eq_refl) as [Hok _].
    destruct (Hok eq_refl)
      as (tbl & st1 & _ & H1 & H2 & _ & _ & _ & _ & H3 & _).
    exists tbl, st1.
    split; [exact H1|]. split; [exact H2|exact (H3 eq_refl)]. }
  destruct (createResource_registries Sample.pluralize Sample.singularize
              Sample.ToString Sample.createPrefix st (JStr "cats")
              JUndefined bad) as [_ Hbad].
  destruct (Hbad "cats" JUndefined bad eq_refl) as [_ Hthrow].
  destruct (Hthrow eq_refl) as (e & st1 & H1 & H2 & H3 & H4).
  exists e, st1.
  split; [exact H1|]. split; [exact H2|]. split; [exact H3|exact H4].
Defined.

Lemma createResource_verbs_and_handlers_witness :
  let st := KoaRestRouter JUndefined [] in
  let ctrl := JObj {[ "list" := JFun (UserFn 1) ]} in
  let opts := JObj {[ "methods" := JObj {[ "put" := JStr "post" ]};
                      "map" := JObj {[ "index" := JStr "list" ]} ]} in
  shift_arguments (JStr "cats") ctrl opts = ("cats", ctrl, opts)
  ∧ verbs_ok (utils.mergeOptions (options st) opts) = true
  ∧ ∃ tbl st',
      createResource' (JStr "cats") ctrl opts st = Ok 0 st'
      ∧ heap st' !! 0 = Some tbl
      ∧ Route.method <$> Arr.items tbl
        = ["GET"; "GET"; "POST"; "GET"; "GET"; "POST"; "DELETE"]
      ∧ (Route.middlewares <$> Arr.items tbl) !! 0 = Some [JFun (UserFn 1)].
Proof.
  intros st ctrl opts. split; [reflexivity|]. split; [reflexivity|].
  destruct (createResource_verbs_and_handlers Sample.pluralize
              Sample.singularize Sample.ToString Sample.createPrefix st
              (JStr "cats") ctrl opts "cats" ctrl opts)
    as (tbl & st' & Hrun & Htbl & Hverbs & _ & _ & Hlist);
    [reflexivity|reflexivity|].
  exists tbl, st'. split; [exact Hrun|]. split; [exact Htbl|].
  split; [exact Hverbs|]. by apply Hlist.
Defined.

Lemma createResource_merges_options_witness :
  let st := KoaRestRouter JUndefined [] in
  let opts := JObj {[ "methods" := JObj {[ "put" := JStr "post" ]} ]} in
  let st1 := final (createResource' (JStr "cats") JUndefined opts st) in
  Options.methods (options st1) !! "put" = Some (JStr "post")
  ∧ Options.methods (options st1) !! "get" = Some (JStr "GET")
  ∧ ∃ st2,
      createResource' (JStr "dogs") JUndefined JUndefined st1 = Ok 1 st2
      ∧ (Route.method <$> default [] (Arr.items <$> heap st2 !! 1)) !! 5
        = Some "POST".
Proof.
  intros st opts st1.
  destruct (createResource_merges_options Sample.pluralize Sample.singularize
              Sample.ToString Sample.createPrefix st (JStr "cats") JUndefined
              opts) as (Hopts & Hmethods & _ & _ & Hnext & _).
  fold st1 in Hopts, Hnext.
  split; [rewrite Hopts; apply Hmethods|].
  split; [rewrite Hopts; apply Hmethods|].
  destruct (Hnext (JStr "dogs") JUndefined JUndefined "dogs" JUndefined
              JUndefined eq_refl) as [_ Hrun].
  destruct Hrun as (st2 & Hrun & Htbl); [reflexivity|].
  exists st2. split; [exact Hrun|].
  change (length (heap st1)) with 1 in Htbl. by rewrite Htbl.
Defined.

Lemma createResource_default_handlers_witness :
  let st := KoaRestRouter JUndefined [] in
  let ctrl := JObj {[ "show" := JFun (UserFn 1) ]} in
  shift_arguments (JStr "cats") ctrl JUndefined = ("cats", ctrl, JUndefined)
  ∧ verbs_ok (utils.mergeOptions (options st) JUndefined) = true
  ∧ ∃ tbl st',
      createResource' (JStr "cats") ctrl JUndefined st = Ok 0 st'
      ∧ heap st' !! 0 = Some tbl
      ∧ length (Arr.items tbl) = 7
      ∧ Forall (λ x, Route.middlewares x ≠ []) (Arr.items tbl).
Proof.
  intros st ctrl. split; [reflexivity|]. split; [reflexivity|].
  destruct (createResource_default_handlers Sample.pluralize
              Sample.singularize Sample.ToString Sample.createPrefix st
              (JStr "cats") ctrl JUndefined "cats" ctrl JUndefined)
    as (_ & _ & tbl & st' & Hrun & Htbl & Hlen & Hhandlers);
    [reflexivity|reflexivity|].
  exists tbl, st'. split; [exact Hrun|]. split; [exact Htbl|].
  split; [exact Hlen|]. apply Hhandlers.
  - intros k v Hk. unfold ctrl in Hk; simpl in Hk.
    by apply lookup_singleton_Some in Hk as [_ <-].
  - intros action Haction. left.
    repeat (apply elem_of_cons in Haction as [->|Haction];
            [apply (bool_decide_unpack _); vm_compute; exact I|]).
    by apply elem_of_nil in Haction.
Defined.

Lemma addRoutes_appends_witness :
  let st0 := KoaRestRouter JUndefined [] in
  let st1 := final (createResource' (JStr "cats") JUndefined JUndefined st0) in
  let st := final (createResource' (JStr "dogs") JUndefined JUndefined st1) in
  Forall (valid_arg (heap st)) [ArgArray 0; ArgArray 1]
  ∧ ∃ st',
      addRoutes [ArgArray 0; ArgArray 1] st = Ok tt st'
      ∧ addResources [ArgArray 0; ArgArray 1] st = Ok tt st'
      ∧ length (routes st') = 14
      ∧ Route.route <$> routes st'
        = ["/cats"; "/cats/new"; "/cats"; "/cats/:cat"; "/cats/:cat/edit";
           "/cats/:cat"; "/cats/:cat";
           "/dogs"; "/dogs/new"; "/dogs"; "/dogs/:dog"; "/dogs/:dog/edit";
           "/dogs/:dog"; "/dogs/:dog"].
Proof.
  intros st0 st1 st.
  assert (Forall (valid_arg (heap st)) [ArgArray 0; ArgArray 1]) as Hvalid.
  { apply (bool_decide_unpack _). vm_compute. exact I. }
  split; [exact Hvalid|].
  destruct (addRoutes_appends st [ArgArray 0; ArgArray 1] Hvalid)
    as (st' & Hadd & Halias & Hroutes & Hlen & _).
  exists st'. split; [exact Hadd|]. split; [exact Halias|].
  split; [rewrite Hlen; reflexivity|].
  rewrite Hroutes. reflexivity.
Defined.

Lemma getResource_first_match_witness :
  let st := KoaRestRouter JUndefined [] in
  shift_arguments (JStr "cat") JUndefined JUndefined
  = ("cat", JUndefined, JUndefined)
  ∧ verbs_ok (utils.mergeOptions (options st) JUndefined) = true
  ∧ "cats" = table_name (route_segment Sample.pluralize "cat")
  ∧ (∀ q, q ∈ resources st → name_of (heap st) q ≠ Some "cats")
  ∧ (∃ a st',
       createResource' (JStr "cat") JUndefined JUndefined st = Ok a st'
       ∧ heap st !! a = None
       ∧ getResource (JStr "cats") st' = Ok (Some a) st')
  ∧ getResource (JStr "cats") st = Ok None st.
Proof.
  intros st.
  assert (∀ q, q ∈ resources st → name_of (heap st) q ≠ Some "cats") as Hnone.
  { intros q Hq. by apply elem_of_nil in Hq. }
  destruct (getResource_first_match Sample.pluralize Sample.singularize
              Sample.ToString Sample.createPrefix st "cats")
    as [(res & Hget & Hres) Hnew].
  split; [reflexivity|]. split; [reflexivity|]. split; [reflexivity|].
  split; [exact Hnone|].
  split.
  - apply (Hnew (JStr "cat") JUndefined JUndefined "cat" JUndefined JUndefined);
      [reflexivity|reflexivity|reflexivity|exact Hnone].
  - destruct res as [p|]; [|exact Hget].
    destruct Hres as (i & Hi & _). by destruct i.
Defined.

Lemma group_first_four_sources_witness :
  let st0 := KoaRestRouter JUndefined [] in
  let st1 := final (createResource' (JStr "cats") JUndefined JUndefined st0) in
  let st2 := final (createResource' (JStr "dogs") JUndefined JUndefined st1) in
  let st3 := final (createResource' (JStr "owls") JUndefined JUndefined st2) in
  let st4 := final (createResource' (JStr "bats") JUndefined JUndefined st3) in
  let st5 := final (createResource' (JStr "ants") JUndefined JUndefined st4) in
  let st := final (createResource' (JStr "bees") JUndefined JUndefined st5) in
  let d := resource_table Sample.pluralize Sample.singularize Sample.ToString
             Sample.createPrefix (options st0) "cats" utils.defaultController in
  let sources := [Some 1; Some 2; Some 3; Some 4; Some 5; Some 77] in
  heap st !! 0 = Some d
  ∧ Forall (long_enough (heap st) (length (Arr.items d)))
      (provided 1 (Some 2) (Some 3) (Some 4))
  ∧ Route.route <$> source_at (heap st) (Some 5) 0 = Some "/bees"
  ∧ heap st !! 77 = None
  ∧ ∃ rs st' r0 r6,
      group_apply Sample.createPrefix 0 sources st = Ok 6 st'
      ∧ group Sample.createPrefix 0 (Some 1) (Some 2) (Some 3) (Some 4) st
        = Ok 6 st'
      ∧ group_apply Sample.createPrefix 0 (take 4 sources) st = Ok 6 st'
      ∧ heap st' !! 6 = Some (Arr.mk rs None)
      ∧ length rs = 7
      ∧ rs !! 0 = Some r0
      ∧ Route.method r0 = "GET"
      ∧ Route.route r0 = "/cats/dogs/owls/bats/ants"
      ∧ rs !! 6 = Some r6
      ∧ Route.method r6 = "DELETE"
      ∧ Route.route r6 = "/cats/:cat/dogs/:dog/owls/:owl/bats/:bat/ants/:ant".
Proof.
  intros st0 st1 st2 st3 st4 st5 st d sources.
  assert (heap st !! 0 = Some d) as Hd by (vm_compute; reflexivity).
  assert (Forall (long_enough (heap st) (length (Arr.items d)))
            (provided 1 (Some 2) (Some 3) (Some 4))) as Hlong.
  { apply (bool_decide_unpack _). vm_compute. exact I. }
  split; [exact Hd|]. split; [exact Hlong|].
  split; [vm_compute; reflexivity|]. split; [vm_compute; reflexivity|].
  destruct (group_first_four_sources Sample.createPrefix 0 st)
    as (Htake & Hbind & Hfour).
  destruct (Hfour d 1 (Some 2) (Some 3) (Some 4) [Some 5; Some 77] Hd Hlong)
    as (rs & st' & Hrun & _ & Hnew & Hlen & Hrs).
  assert (∃ d0, Arr.items d !! 0 = Some d0 ∧ Route.method d0 = "GET"
                ∧ Route.route d0 = "/cats") as (d0 & Hd0 & Hm0 & Hp0).
  { eexists. split; [vm_compute; reflexivity|].
    split; vm_compute; reflexivity. }
  assert (∃ d6, Arr.items d !! 6 = Some d6 ∧ Route.method d6 = "DELETE"
                ∧ Route.route d6 = "/cats/:cat") as (d6 & Hd6 & Hm6 & Hp6).
  { eexists. split; [vm_compute; reflexivity|].
    split; vm_compute; reflexivity. }
  destruct (Hrs 0 d0 Hd0) as (r0 & Hr0 & Hmeth0 & Hroute0 & _).
  destruct (Hrs 6 d6 Hd6) as (r6 & Hr6 & Hmeth6 & Hroute6 & _).
  exists rs, st', r0, r6.
  split; [exact Hrun|].
  split; [etrans; [symmetry; apply Hbind|exact Hrun]|].
  split; [etrans; [symmetry; apply Htake|exact Hrun]|].
  split; [exact Hnew|]. split; [exact Hlen|].
  split; [exact Hr0|]. split; [by rewrite Hmeth0|].
  split.
  { rewrite Hroute0, Hp0. vm_compute. reflexivity. }
  split; [exact Hr6|]. split; [by rewrite Hmeth6|].
  rewrite Hroute6, Hp6. vm_compute. reflexivity.
Defined.

Lemma group_merges_witness :
  let st0 := KoaRestRouter JUndefined [] in
  let st1 := final (createResource' (JStr "cats") JUndefined JUndefined st0) in
  let st := final (createResource' (JStr "dogs") JUndefined JUndefined st1) in
  let d := resource_table Sample.pluralize Sample.singularize Sample.ToString
             Sample.createPrefix (options st0) "cats" utils.defaultController in
  heap st !! 0 = Some d
  ∧ Forall (long_enough (heap st) (length (Arr.items d)))
      (provided 1 None None None)
  ∧ ∃ rs st',
      group Sample.createPrefix 0 (Some 1) None None None st = Ok 2 st'
      ∧ heap st' !! 2 = Some (Arr.mk rs None)
      ∧ length rs = 7
      ∧ heap st' !! 0 = Some d
      ∧ routes st' = routes st
      ∧ resources st' = resources st.
Proof.
  intros st0 st1 st d.
  assert (heap st !! 0 = Some d) as Hd by (vm_compute; reflexivity).
  assert (Forall (long_enough (heap st) (length (Arr.items d)))
            (provided 1 None None None)) as Hlong.
  { apply (bool_decide_unpack _). vm_compute. exact I. }
  split; [exact Hd|]. split; [exact Hlong|].
  destruct (group_merges Sample.createPrefix st 0 1 None None None d Hd Hlong)
    as (rs & st' & Hrun & _ & Hnew & Hlen & _ & Hold & Hroutes & Hres & _).
  exists rs, st'. split; [exact Hrun|]. split; [exact Hnew|].
  split; [exact Hlen|].
  split; [by apply Hold|]. split; [exact Hroutes|exact Hres].
Defined.


(** ** Where the stated claims and the code part ways *)

(** C3, as stated, fails: for the name [/cats] the route segment is
    [pluralize("cats")], not [pluralize("/cats")], and the parameter is
    [":" + singularize("cats")]. *)
Lemma createResource_names_counterexample :
  ¬ (∀ (pluralize singularize : string → string) (name : string),
       name ≠ "/" →
       route_segment pluralize name = pluralize name
       ∧ param_name singularize name = ":" +:+ singularize name).
Proof.
  intros Hclaim.
  destruct (Hclaim Sample.pluralize Sample.singularize "/cats") as [Hroute _];
    [done|].
  vm_compute in Hroute. discriminate Hroute.
Qed.

(** C6, as stated, fails: a [prefix] passed in [opts] is no part of the
    [methods] or [map] portion, and yet it stays in the persistent options
    and prefixes the routes of the calls that follow. *)
Lemma createResource_merges_options_counterexample :
  let st := KoaRestRouter JUndefined [] in
  let opts := JObj {[ "prefix" := JStr "/v2" ]} in
  let st1 := final (createResource' (JStr "cats") JUndefined opts st) in
  own_props (get_prop (own_props opts) "methods") = ∅
  ∧ own_props (get_prop (own_props opts) "map") = ∅
  ∧ Options.rest (options st) !! "prefix" = Some (JStr "/")
  ∧ Options.rest (options st1) !! "prefix" = Some (JStr "/v2")
  ∧ (Route.path <$>
       default [] (Arr.items <$>
         table_of (createResource' (JStr "dogs") JUndefined JUndefined st1)))
    = ["/v2/dogs"; "/v2/dogs/new"; "/v2/dogs"; "/v2/dogs/:dog";
       "/v2/dogs/:dog/edit"; "/v2/dogs/:dog"; "/v2/dogs/:dog"].
Proof. vm_compute. repeat split; reflexivity. Qed.

(** C7, as stated, fails: an action has no handler when the controller
    supplies an empty sequence for it, and when [map] sends it to a key that
    neither the controller nor the default controller has. *)
Lemma createResource_default_handlers_counterexample :
  let st := KoaRestRouter JUndefined [] in
  (Route.middlewares <$>
     default [] (Arr.items <$>
       table_of (createResource' (JStr "cats")
                   (JObj {[ "index" := JArr [] ]}) JUndefined st))) !! 0
  = Some []
  ∧ (Route.middlewares <$>
       default [] (Arr.items <$>
         table_of (createResource' (JStr "cats") (JObj ∅)
                     (JObj {[ "map" := JObj {[ "index" := JStr "list" ]} ]})
                     st))) !! 0
    = Some [].
Proof. vm_compute. split; reflexivity. Qed.

(** ** The examples of the source's documentation *)

(** Lines 27-45: each [resource] adds seven routes and one table. *)
Example resource_twice :
  let st0 := KoaRestRouter (JObj {[ "prefix" := JStr "/api/v1" ]}) [] in
  let ctrl := JObj {[ "index" := JFun (UserFn 1); "show" := JFun (UserFn 2);
                      "create" := JFun (UserFn 3) ]} in
  let st1 := final (resource' (JStr "companies") ctrl JUndefined st0) in
  let st2 := final (resource' (JStr "profiles") ctrl JUndefined st1) in
  (length (routes st1), length (resources st1)) = (7, 1)
  ∧ (length (routes st2), length (resources st2)) = (14, 2)
  ∧ Route.path <$> take 2 (routes st2)
    = ["/api/v1/companies"; "/api/v1/companies/new"].
Proof. vm_compute. repeat split; reflexivity. Qed.

(** Lines 99-119: [createResource] registers nothing in [routes];
    [addRoutes(foo, users)] then adds one route and seven. *)
Example addRoutes_route_and_resource :
  let st0 := KoaRestRouter JUndefined [] in
  let foo := route_object Sample.createPrefix (options st0) "GET" "/foo"
               (JFun (UserFn 1)) in
  let st1 := final (createResource' (JStr "users")
                      (JObj {[ "index" := JFun (UserFn 2) ]}) JUndefined st0) in
  let st2 := final (addRoutes [ArgRoute foo; ArgArray 0] st1) in
  createRoute Sample.createPrefix (JStr "GET") "/foo" (JFun (UserFn 1)) st0
  = Ok foo st0
  ∧ (length (routes st1), length (resources st1)) = (0, 1)
  ∧ (length (routes st2), length (resources st2)) = (8, 1).
Proof. vm_compute. repeat split; reflexivity. Qed.

(** Lines 556-557: the merged paths of [group(cats, dogs)]. *)
Example group_cats_dogs :
  let st0 := KoaRestRouter JUndefined [] in
  let st1 := final (createResource' (JStr "cats") JUndefined JUndefined st0) in
  let st := final (createResource' (JStr "dogs") JUndefined JUndefined st1) in
  (Route.route <$>
     default [] (Arr.items <$>
       table_of (group Sample.createPrefix 0 (Some 1) None None None st)))
  = ["/cats/dogs"; "/cats/new/dogs/new"; "/cats/dogs";
     "/cats/:cat/dogs/:dog"; "/cats/:cat/edit/dogs/:dog/edit";
     "/cats/:cat/dogs/:dog"; "/cats/:cat/dogs/:dog"].
Proof. vm_compute. reflexivity. Qed.

(** A fifth source is dropped, not merged: passed in the same call [bees]
    leaves the paths as the first four sources made them, and only a call of
    its own appends its paths. *)
Example group_fifth_source_dropped :
  let st0 := KoaRestRouter JUndefined [] in
  let st1 := final (createResource' (JStr "cats") JUndefined JUndefined st0) in
  let st2 := final (createResource' (JStr "dogs") JUndefined JUndefined st1) in
  let st3 := final (createResource' (JStr "owls") JUndefined JUndefined st2) in
  let st4 := final (createResource' (JStr "bats") JUndefined JUndefined st3) in
  let st5 := final (createResource' (JStr "ants") JUndefined JUndefined st4) in
  let st := final (createResource' (JStr "bees") JUndefined JUndefined st5) in
  let paths r := Route.route <$> default [] (Arr.items <$> table_of r) in
  paths (group_apply Sample.createPrefix 0
           [Some 1; Some 2; Some 3; Some 4; Some 5] st) !! 0
  = Some "/cats/dogs/owls/bats/ants"
  ∧ paths (group_chain Sample.createPrefix 0 [1; 2; 3; 4; 5] st) !! 0
    = Some "/cats/dogs/owls/bats/ants/bees".
Proof. vm_compute. split; reflexivity. Qed.

(** Lines 205 and 374: on a router built with the defaults, either spelling
    of the delete override changes the verb of the remove descriptor. *)
Example delete_verb_overrides :
  let st := KoaRestRouter JUndefined [] in
  let verbs opts :=
    Route.method <$>
      default [] (Arr.items <$>
        table_of (createResource' (JStr "cats") JUndefined opts st)) in
  verbs JUndefined !! 6 = Some "DELETE"
  ∧ verbs (JObj {[ "methods" := JObj {[ "delete" := JStr "post" ]} ]}) !! 6
    = Some "POST"
  ∧ verbs (JObj {[ "methods" := JObj {[ "del" := JStr "POST" ]} ]}) !! 6
    = Some "POST".
Proof. vm_compute. repeat split; reflexivity. Qed.

(** ** The further properties at concrete inputs *)

Local Notation run' :=
  (run Sample.pluralize Sample.singularize Sample.ToString
     Sample.createPrefix).
Local Notation reachable' :=
  (reachable Sample.pluralize Sample.singularize Sample.ToString
     Sample.createPrefix).

(** A call that fails: with a verb that is no string the first route cannot
    be built, and nothing is filed. *)
Example createResource_fails_cleanly :
  let st := KoaRestRouter JUndefined [] in
  let opts := JObj {[ "methods" := JObj {[ "post" := JNum 5 ]} ]} in
  match createResource' (JStr "cats") JUndefined opts st with
  | Ok _ _ => False
  | Throw _ st' =>
      resources st' = [] ∧ routes st' = []
      ∧ Options.methods (options st') !! "post" = Some (JNum 5)
  end.
Proof. vm_compute. repeat split; reflexivity. Qed.

Lemma reachable_registry_ok_witness :
  let st0 := KoaRestRouter JUndefined [] in
  let st1 := run' (CallResource (JStr "cats") JUndefined JUndefined) st0 in
  let st := run' (CallGroup 0 (Some 0) None None None) st1 in
  reachable' st ∧ registry_ok st ∧ resources st = [0] ∧ length (heap st) = 2.
Proof.
  intros st0 st1 st.
  assert (reachable' st) as Hreach by (do 2 apply reachable_run; constructor).
  split; [exact Hreach|].
  split; [exact (reachable_registry_ok _ _ _ _ st Hreach)|].
  vm_compute. split; reflexivity.
Defined.

Lemma getResource_stable_witness :
  let st0 := KoaRestRouter JUndefined [] in
  let st := final (createResource' (JStr "cats") JUndefined JUndefined st0) in
  let again := CallCreateResource (JStr "/cats") JUndefined JUndefined in
  registry_ok st
  ∧ getResource (JStr "cats") st = Ok (Some 0) st
  ∧ resources (run' again st) = [0; 1]
  ∧ getResource (JStr "cats") (run' again st) = Ok (Some 0) (run' again st).
Proof.
  intros st0 st again.
  assert (registry_ok st) as Hok
    by (apply (bool_decide_unpack _); vm_compute; exact I).
  assert (getResource (JStr "cats") st = Ok (Some 0) st) as Hget
    by (vm_compute; reflexivity).
  split; [exact Hok|]. split; [exact Hget|].
  split; [vm_compute; reflexivity|].
  exact (getResource_stable _ _ _ _ st (JStr "cats") 0 again Hok Hget).
Defined.

Lemma getResource_not_a_name_witness :
  let st0 := KoaRestRouter JUndefined [] in
  let st := final (createResource' JUndefined JUndefined JUndefined st0) in
  registry_ok st
  ∧ typeof JUndefined ≠ "string"
  ∧ getResource JUndefined st = Ok None st
  ∧ getResource (JStr EmptyString) st = Ok None st
  ∧ getResource (JStr "/") st = Ok (Some 0) st.
Proof.
  intros st0 st.
  assert (registry_ok st) as Hok
    by (apply (bool_decide_unpack _); vm_compute; exact I).
  split; [exact Hok|]. split; [discriminate|].
  split; [apply (getResource_not_a_name st JUndefined Hok); by left|].
  split; [apply (getResource_not_a_name st _ Hok); by right|].
  vm_compute. reflexivity.
Defined.

Lemma addRoutes_composes_witness :
  let st0 := KoaRestRouter JUndefined [] in
  let st1 := final (createResource' (JStr "cats") JUndefined JUndefined st0) in
  let st := final (createResource' (JStr "dogs") JUndefined JUndefined st1) in
  Forall (valid_arg (heap st)) [ArgArray 0]
  ∧ Forall (valid_arg (heap st)) [ArgArray 1]
  ∧ (let! _ := addRoutes [ArgArray 0] in addRoutes [ArgArray 1]) st
    = addRoutes [ArgArray 0; ArgArray 1] st
  ∧ addRoutes [] st = Ok tt st.
Proof.
  intros st0 st1 st.
  assert (Forall (valid_arg (heap st)) [ArgArray 0]) as H0
    by (apply (bool_decide_unpack _); vm_compute; exact I).
  assert (Forall (valid_arg (heap st)) [ArgArray 1]) as H1
    by (apply (bool_decide_unpack _); vm_compute; exact I).
  split; [exact H0|]. split; [exact H1|].
  exact (addRoutes_composes st [ArgArray 0] [ArgArray 1] H0 H1).
Defined.

Lemma group_empty_destination_witness :
  let st := KoaRestRouter JUndefined [Arr.empty] in
  heap st !! 0 = Some Arr.empty
  ∧ Arr.items Arr.empty = []
  ∧ group Sample.createPrefix 0 None None None None st
    = Ok 1 (set_heap [Arr.empty; Arr.mk [] None] st).
Proof.
  intros st. split; [reflexivity|]. split; [reflexivity|].
  exact (group_empty_destination Sample.createPrefix st 0 None None None None
           Arr.empty eq_refl eq_refl).
Defined.

Lemma group_registers_nothing_witness :
  let st0 := KoaRestRouter JUndefined [] in
  let st1 := final (createResource' (JStr "cats") JUndefined JUndefined st0) in
  let st := final (createResource' (JStr "dogs") JUndefined JUndefined st1) in
  let st' := final (group Sample.createPrefix 0 (Some 1) None None None st) in
  registry_ok st
  ∧ getResource (JStr "dogs") st = Ok (Some 1) st
  ∧ length (heap st') = 3
  ∧ routes st' = []
  ∧ resources st' = [0; 1]
  ∧ getResource (JStr "dogs") st' = Ok (Some 1) st'.
Proof.
  intros st0 st1 st st'.
  assert (registry_ok st) as Hok
    by (apply (bool_decide_unpack _); vm_compute; exact I).
  assert (getResource (JStr "dogs") st = Ok (Some 1) st) as Hget
    by (vm_compute; reflexivity).
  destruct (group_registers_nothing Sample.createPrefix 0 (Some 1) None None
              None st) as (Hroutes & Hres & _ & _ & Hsame).
  fold st' in Hroutes, Hres, Hsame.
  split; [exact Hok|]. split; [exact Hget|].
  split; [vm_compute; reflexivity|].
  split; [rewrite Hroutes; vm_compute; reflexivity|].
  split; [rewrite Hres; vm_compute; reflexivity|].
  exact (Hsame Hok _ _ Hget).
Defined.

Lemma group_one_source_at_a_time_witness :
  let st0 := KoaRestRouter JUndefined [] in
  let st1 := final (createResource' (JStr "cats") JUndefined JUndefined st0) in
  let st2 := final (createResource' (JStr "dogs") JUndefined JUndefined st1) in
  let st := final (createResource' (JStr "birds") JUndefined JUndefined st2) in
  let d := resource_table Sample.pluralize Sample.singularize Sample.ToString
             Sample.createPrefix (options st0) "cats" utils.defaultController in
  heap st !! 0 = Some d
  ∧ Forall (long_enough (heap st) (length (Arr.items d)))
      (provided 1 None (Some 2) None)
  ∧ ∃ rs a st1 b st2,
      group Sample.createPrefix 0 (Some 1) None (Some 2) None st = Ok a st1
      ∧ heap st1 !! a = Some (Arr.mk rs None)
      ∧ group_chain Sample.createPrefix 0 [1; 2] st = Ok b st2
      ∧ Arr.items <$> heap st2 !! b = Some rs.
Proof.
  intros st0 st1 st2 st d.
  assert (heap st !! 0 = Some d) as Hd by (vm_compute; reflexivity).
  assert (Forall (long_enough (heap st) (length (Arr.items d)))
            (provided 1 None (Some 2) None)) as Hlong
    by (apply (bool_decide_unpack _); vm_compute; exact I).
  split; [exact Hd|]. split; [exact Hlong|].
  exact (group_one_source_at_a_time Sample.createPrefix st 0 1 None (Some 2)
           None d Hd Hlong).
Defined.

Lemma group_associative_witness :
  let st0 := KoaRestRouter JUndefined [] in
  let st1 := final (createResource' (JStr "cats") JUndefined JUndefined st0) in
  let st2 := final (createResource' (JStr "dogs") JUndefined JUndefined st1) in
  let st := final (createResource' (JStr "birds") JUndefined JUndefined st2) in
  let rs := default [] (Arr.items <$>
              table_of ((let! ab := group Sample.createPrefix 0 (Some 1) None
                                      None None in
                         group Sample.createPrefix ab (Some 2) None None None)
                          st)) in
  Route.route <$> rs
  = ["/cats/dogs/birds"; "/cats/new/dogs/new/birds/new"; "/cats/dogs/birds";
     "/cats/:cat/dogs/:dog/birds/:bird";
     "/cats/:cat/edit/dogs/:dog/edit/birds/:bird/edit";
     "/cats/:cat/dogs/:dog/birds/:bird"; "/cats/:cat/dogs/:dog/birds/:bird"]
  ∧ Arr.items <$>
      table_of ((let! bc := group Sample.createPrefix 1 (Some 2) None None
                              None in
                 group Sample.createPrefix 0 (Some bc) None None None) st)
    = Some rs.
Proof.
  intros st0 st1 st2 st rs.
  split; [vm_compute; reflexivity|].
  assert (∃ A, heap st !! 0 = Some A ∧ length (Arr.items A) = 7)
    as (A & HA & HlenA) by (eexists; split; vm_compute; reflexivity).
  assert (∃ B, heap st !! 1 = Some B ∧ length (Arr.items B) = 7)
    as (B & HB & HlenB) by (eexists; split; vm_compute; reflexivity).
  assert (∃ C, heap st !! 2 = Some C ∧ length (Arr.items C) = 7)
    as (C & HC & HlenC) by (eexists; split; vm_compute; reflexivity).
  destruct (group_associative Sample.createPrefix st 0 1 2 A B C HA HB HC)
    as (rs' & Hleft & Hright); [lia|lia|].
  etrans; [exact Hright|]. apply (f_equal Some). symmetry.
  exact (f_equal (default []) Hleft).
Defined.

Lemma createResource_call_shapes_witness :
  let st := KoaRestRouter JUndefined [] in
  let ctrl := JObj {[ "index" := JFun (UserFn 1) ]} in
  typeof ctrl = "object"
  ∧ createResource' ctrl JUndefined (JStr "ignored") st
    = createResource' (JStr "/") ctrl JUndefined st
  ∧ createResource' (JNum 7) ctrl JUndefined st
    = createResource' (JStr "/") ctrl JUndefined st
  ∧ createResource' (JStr "/cats") ctrl JUndefined st
    = createResource' (JStr "cats") ctrl JUndefined st.
Proof.
  intros st ctrl.
  destruct (createResource_call_shapes Sample.pluralize Sample.singularize
              Sample.ToString Sample.createPrefix ctrl JUndefined JUndefined
              st) as (Hobj & _ & _).
  destruct (createResource_call_shapes Sample.pluralize Sample.singularize
              Sample.ToString Sample.createPrefix (JNum 7) ctrl JUndefined
              st) as (_ & Hnum & Hslash).
  split; [reflexivity|].
  split; [by apply Hobj|].
  split; [by apply Hnum|].
  by apply (Hslash "cats").
Defined.
